(** * anemoi.graphs.utils: a shallow embedding and its verification

    The module [src/anemoi/graphs/utils.py] holds four helpers used when a
    spatial graph is built over geographic coordinates:

    - [get_nearest_neighbour]        (fits a scikit-learn [NearestNeighbors]),
    - [get_grid_reference_distance]  (largest nearest-neighbour distance),
    - [add_margin]                   (pads a point set with 8 shifted copies),
    - [get_index_in_outer_join]      (row index of a vector in a matrix).

    NumPy arrays and torch tensors of rank one are lists, a rank-two tensor is
    the list of its rows, and a Python exception is the [Raise] case of
    [result].  The element type of the arrays is left open behind the
    [Scalar] interface: the code only adds, multiplies and compares its
    elements, and the interface is instantiated below with IEEE binary64
    (what NumPy computes with), with [Z] and with the real numbers. *)

From Stdlib Require Import String.
From Stdlib Require Import List ZArith Bool Lia Permutation Sorted.
From Stdlib Require Floats Reals Lra.
Import ListNotations.

Set Implicit Arguments.
Local Open Scope Z_scope.

(** ** Exceptions and the error monad *)

(** The exceptions the module can end with: [AssertionError] comes from the
    module's own [assert] statements, [ValueError] and [RuntimeError] from
    NumPy, scikit-learn or torch. *)
Inductive exn : Type :=
| AssertionError (msg : string)
| ValueError (msg : string)
| RuntimeError (msg : string).

Inductive result (A : Type) : Type :=
| Return (a : A)
| Raise (e : exn).

Arguments Return {A} a.
Arguments Raise {A} e.

Definition bind {A B : Type} (m : result A) (k : A -> result B) : result B :=
  match m with
  | Return a => k a
  | Raise e => Raise e
  end.

Notation "x <- m ;; k" := (bind m (fun x => k))
  (at level 61, m at next level, right associativity).

(** [assert cond, msg] *)
Definition py_assert (cond : bool) (msg : string) : result unit :=
  if cond then Return tt else Raise (AssertionError msg).

(** Whether a call ended in an exception of the library underneath rather
    than in a value or in an error the module signals itself. *)
Definition propagates_library_error {A : Type} (r : result A) : Prop :=
  match r with
  | Raise (ValueError _) | Raise (RuntimeError _) => True
  | _ => False
  end.

(** ** The scalar interface *)

(** What the module asks of array elements: [+], [*], the conversion of a
    Python [int] literal, the comparisons [<], [<=], [==], and the finiteness
    test scikit-learn applies to its input. *)
Class Scalar (F : Type) : Type := {
  fadd : F -> F -> F;
  fmul : F -> F -> F;
  of_int : Z -> F;
  fltb : F -> F -> bool;
  fleb : F -> F -> bool;
  feqb : F -> F -> bool;
  is_finite : F -> bool
}.

(** Python's [a > b] and [a >= b] are [b < a] and [b <= a]. *)
Definition fgtb {F} `{Scalar F} (a b : F) : bool := fltb b a.
Definition fgeb {F} `{Scalar F} (a b : F) : bool := fleb b a.

(** The facts about comparison with the literal [0] that the branches of
    [add_margin] rest on.  They hold of IEEE doubles (NaN included) and of
    exact numbers alike. *)
Class ScalarLaws (F : Type) {S : Scalar F} : Prop := {
  gt0_ge0 : forall m : F, fgtb m (of_int 0) = true -> fgeb m (of_int 0) = true;
  gt0_ne0 : forall m : F, fgtb m (of_int 0) = true -> feqb m (of_int 0) = false;
  lt0_not_ge0 : forall m : F, fltb m (of_int 0) = true -> fgeb m (of_int 0) = false;
  eq0_ge0 : forall m : F, feqb m (of_int 0) = true -> fgeb m (of_int 0) = true;
  eq0_not_gt0 : forall m : F, feqb m (of_int 0) = true -> fgtb m (of_int 0) = false
}.

Arguments ScalarLaws F {S}.

(** Scalars whose [<=] is a total order that [<] and [==] agree with: the
    exact numbers.  The doubles are not among them (NaN is not equal to
    itself, and [0.0] and [-0.0] are different values that compare equal);
    for them see [OrdinaryLaws] below. *)
Class OrderLaws (F : Type) {S : Scalar F} : Prop := {
  fleb_total : forall x y : F, fleb x y = true \/ fleb y x = true;
  fleb_trans : forall x y z : F,
    fleb x y = true -> fleb y z = true -> fleb x z = true;
  fleb_antisym : forall x y : F, fleb x y = true -> fleb y x = true -> x = y;
  fltb_fleb : forall x y : F, fltb x y = negb (fleb y x);
  feqb_refl : forall x : F, feqb x x = true
}.

Arguments OrderLaws F {S}.

(** The same laws on part of the scalars only, the [ordinary] ones, with
    the literal [0] among them.  For the doubles the ordinary values are
    all but NaN and the negative zero (instance [float_OrdinaryLaws]
    below); where [<=] is a total order every value is ordinary. *)
Record OrdinaryLaws {F : Type} {S : Scalar F} (ordinary : F -> Prop)
    : Prop := {
  ord_zero : ordinary (of_int 0);
  ord_total : forall x y : F,
    ordinary x -> ordinary y -> fleb x y = true \/ fleb y x = true;
  ord_trans : forall x y z : F,
    fleb x y = true -> fleb y z = true -> fleb x z = true;
  ord_antisym : forall x y : F,
    ordinary x -> ordinary y ->
    fleb x y = true -> fleb y x = true -> x = y;
  ord_lt : forall x y : F,
    ordinary x -> ordinary y -> fltb x y = negb (fleb y x);
  ord_eq : forall x : F, ordinary x -> feqb x x = true
}.

(** ** add_margin *)

Section AddMargin.
Context {F : Type} `{Scalar F}.

(** [arr + x] for an array and a scalar (NumPy broadcasting). *)
Definition ndarray_add (arr : list F) (x : F) : list F :=
  map (fun a => fadd a x) arr.

(** [sign * margin] with an [int] sign and a scalar margin. *)
Definition scale (sign : Z) (margin : F) : F := fmul (of_int sign) margin.

(** The iteration [[-1, 0, 1]] of both loops. *)
Definition signs : list Z := [-1; 0; 1].

(** The body of the inner loop: both accumulators get one more array. *)
Definition margin_step (lats lons : list F) (margin : F) (lat_sign : Z)
    (acc : list (list F) * list (list F)) (lon_sign : Z)
    : list (list F) * list (list F) :=
  let '(latitudes, longitudes) := acc in
  (latitudes ++ [ndarray_add lats (scale lat_sign margin)],
   longitudes ++ [ndarray_add lons (scale lon_sign margin)]).

(** The two nested [for] loops, threading the accumulators
    [latitudes, longitudes = [], []]. *)
Definition margin_loops (lats lons : list F) (margin : F)
    : list (list F) * list (list F) :=
  fold_left
    (fun acc lat_sign =>
       fold_left (margin_step lats lons margin lat_sign) signs acc)
    signs ([], []).

Definition add_margin (lats lons : list F) (margin : F)
    : result (list F * list F) :=
  _ <- py_assert (fgeb margin (of_int 0)) "Margin must be non-negative" ;;
  if feqb margin (of_int 0) then Return (lats, lons)
  else
    let '(latitudes, longitudes) := margin_loops lats lons margin in
    Return (concat latitudes, concat longitudes).

(** The nine shifted copies of one point, as the specification lists them:
    [(lat + a*m, lon + b*m)] for [a], [b] in [{-1, 0, 1}]. *)
Definition offset_variants (margin : F) (p : F * F) : list (F * F) :=
  flat_map
    (fun a => map (fun b => (fadd (fst p) (scale a margin),
                             fadd (snd p) (scale b margin))) signs)
    signs.

(** Block [k] of the output as the specification describes it: the whole
    input shifted by [(k / 3 - 1) * m] and [(k mod 3 - 1) * m]. *)
Definition lat_block (lats : list F) (margin : F) (k : nat) : list F :=
  ndarray_add lats (scale (Z.of_nat k / 3 - 1) margin).
Definition lon_block (lons : list F) (margin : F) (k : nat) : list F :=
  ndarray_add lons (scale (Z.of_nat k mod 3 - 1) margin).
End AddMargin.

(** ** Instances of the scalar interface *)

(** Exact integers: arithmetic without rounding and without wrap-around
    (not NumPy's [int64], which wraps).  Used in the examples only. *)
#[global] Instance Z_Scalar : Scalar Z := {
  fadd := Z.add;
  fmul := Z.mul;
  of_int := fun z => z;
  fltb := Z.ltb;
  fleb := Z.leb;
  feqb := Z.eqb;
  is_finite := fun _ => true
}.

#[global] Instance Z_ScalarLaws : ScalarLaws Z.
Proof.
  split; unfold fgtb, fgeb; cbn; intros m Hm; lia.
Qed.

#[global] Instance Z_OrderLaws : OrderLaws Z.
Proof.
  split; cbn; intros; lia.
Qed.

Example add_margin_Z_run :
  add_margin (F := Z) [10; 20] [100; 200] 1 =
  Return ([9; 19; 9; 19; 9; 19; 10; 20; 10; 20; 10; 20; 11; 21; 11; 21; 11; 21],
          [99; 199; 100; 200; 101; 201; 99; 199; 100; 200; 101; 201;
           99; 199; 100; 200; 101; 201]).
Proof. reflexivity. Qed.

(** Two input points one margin apart share a variant: [(1, 0)] is the
    input point [(1, 0)] and the point [(0, 0)] moved up by the margin.
    It is in the output once for each. *)
Example add_margin_shared_variant :
  exists latitudes longitudes,
    add_margin (F := Z) [0; 1] [0; 0] 1 = Return (latitudes, longitudes)
    /\ nth_error (combine latitudes longitudes) 9 = Some (1, 0)
    /\ nth_error (combine latitudes longitudes) 14 = Some (1, 0).
Proof. do 2 eexists; repeat split. Qed.

(** ** IEEE binary64 as a scalar *)

(** NumPy's [float64] is the kernel's primitive float; its comparisons are
    specified by [SFcompare] on the decoded value. *)
Module Float64.

Definition float_of_int (z : Z) : PrimFloat.float :=
  match z with
  | Z0 => PrimFloat.zero
  | Zpos _ => PrimFloat.of_uint63 (Uint63.of_Z z)
  | Zneg p => PrimFloat.opp (PrimFloat.of_uint63 (Uint63.of_Z (Zpos p)))
  end.

#[global] Instance float_Scalar : Scalar PrimFloat.float := {|
  fadd := PrimFloat.add;
  fmul := PrimFloat.mul;
  of_int := float_of_int;
  fltb := PrimFloat.ltb;
  fleb := PrimFloat.leb;
  feqb := PrimFloat.eqb;
  is_finite := PrimFloat.is_finite
|}.

Import Floats.

Lemma Prim2SF_zero : Prim2SF 0%float = S754_zero false.
Proof. reflexivity. Qed.

#[global] Instance float_ScalarLaws : ScalarLaws float.
Proof.
  split; intros m; unfold fgtb, fgeb; cbn;
    rewrite ?ltb_spec, ?leb_spec, ?eqb_spec, Prim2SF_zero;
    unfold SFltb, SFleb, SFeqb;
    destruct (Prim2SF m) as [[|]|[|]| |[|] mant e]; cbn; congruence.
Qed.

Example add_margin_float_run :
  add_margin [0.5; 1.5]%float [10; 20]%float 0.25%float =
  Return ([0.25; 1.25; 0.25; 1.25; 0.25; 1.25; 0.5; 1.5; 0.5; 1.5; 0.5; 1.5;
           0.75; 1.75; 0.75; 1.75; 0.75; 1.75]%float,
          [9.75; 19.75; 10; 20; 10.25; 20.25; 9.75; 19.75; 10; 20;
           10.25; 20.25; 9.75; 19.75; 10; 20; 10.25; 20.25]%float).
Proof. vm_compute. reflexivity. Qed.

(** [assert nan >= 0] fails: NaN is neither negative nor non-negative. *)
Example add_margin_float_nan :
  add_margin [0.5]%float [10]%float PrimFloat.nan =
  Raise (AssertionError "Margin must be non-negative").
Proof. vm_compute. reflexivity. Qed.

(** [-0.0 == 0] holds: the inputs come back. *)
Example add_margin_float_negative_zero :
  add_margin [0.5]%float [10]%float (-0)%float
  = Return ([0.5]%float, [10]%float).
Proof. vm_compute. reflexivity. Qed.
End Float64.

(** ** Tensors with a shape, as far as masks need them *)

(** A torch tensor seen through [.shape] and its flattened contents. *)
Record Tensor (A : Type) : Type := {
  shape : list nat;
  data : list A
}.

(** [shape1 == shape2] on tuples of dimensions. *)
Fixpoint shape_eqb (s1 s2 : list nat) : bool :=
  match s1, s2 with
  | [], [] => true
  | a :: s1', b :: s2' => Nat.eqb a b && shape_eqb s1' s2'
  | _, _ => false
  end.

(** ** Nearest neighbours *)

(** The part of scikit-learn the module calls is not part of the repository.
    It is modelled by its documented contract: [fit] validates and stores the
    points, [kneighbors] gives, for each query point, the distances to its
    [n_neighbors] nearest fitted points in ascending order (a query point
    that is itself a fitted point is among its neighbours, at distance 0).
    The metric named ["haversine"] is computed by compiled code of the
    library and is the parameter [haversine] of this section.  The messages
    of the library's exceptions are shortened; the claims depend on none. *)
Section Neighbours.
Context {F : Type} `{Scalar F}.

(** A point [(latitude, longitude)] in radians: one row of [coords_rad]. *)
Definition coord : Type := (F * F)%type.

Variable haversine : coord -> coord -> F.

(** The estimator object: constructor arguments and, once fitted, the
    training points. *)
Record NearestNeighbors : Type := {
  metric : string;
  n_jobs : nat;
  fit_X : option (list coord)
}.

Definition coord_finite (p : coord) : bool :=
  is_finite (fst p) && is_finite (snd p).

(** [estimator.fit(X)]: input validation, then the points are stored. *)
Definition fit (nn : NearestNeighbors) (X : list coord)
    : result NearestNeighbors :=
  if negb (forallb coord_finite X) then
    Raise (ValueError "Input contains NaN or infinity.")
  else if (length X =? 0)%nat then
    Raise (ValueError "Found array with 0 sample(s) while a minimum of 1 is required by NearestNeighbors.")
  else
    Return {| metric := metric nn; n_jobs := n_jobs nn; fit_X := Some X |}.

Fixpoint insert_sorted (x : F) (l : list F) : list F :=
  match l with
  | [] => [x]
  | y :: l' => if fleb x y then x :: l else y :: insert_sorted x l'
  end.

(** Distances in ascending order. *)
Definition sort_ascending (l : list F) : list F :=
  fold_right insert_sorted [] l.

(** One row of the distance matrix [kneighbors] returns. *)
Definition kneighbors_row (fitted : list coord) (n_neighbors : nat)
    (q : coord) : list F :=
  firstn n_neighbors (sort_ascending (map (haversine q) fitted)).

(** [estimator.kneighbors(X, n_neighbors=k, return_distance=True)], the
    distance matrix only: the caller drops the index matrix. *)
Definition kneighbors (nn : NearestNeighbors) (X : list coord)
    (n_neighbors : nat) : result (list (list F)) :=
  match fit_X nn with
  | None => Raise (ValueError "This NearestNeighbors instance is not fitted yet.")
  | Some fitted =>
      if negb (forallb coord_finite X) then
        Raise (ValueError "Input contains NaN or infinity.")
      else if (length fitted <? n_neighbors)%nat then
        Raise (ValueError "Expected n_neighbors <= n_samples_fit")
      else Return (map (kneighbors_row fitted n_neighbors) X)
  end.

(** NumPy's [maximum] on two elements: NaN in the accumulator wins. *)
Definition np_maximum (a b : F) : F :=
  if fgeb a b || negb (feqb a a) then a else b.

(** [arr.max()] of a flat array. *)
Definition ndarray_max (arr : list F) : result F :=
  match arr with
  | [] => Raise (ValueError "zero-size array to reduction operation maximum which has no identity")
  | x :: rest => Return (fold_left np_maximum rest x)
  end.

Definition mask_shape_ok (n : nat) (mask : option (Tensor bool)) : bool :=
  match mask with
  | None => true
  | Some m => shape_eqb (shape m) [n; 1%nat]
  end.

Definition mask_message : string :=
  "Mask must have the same shape as the number of nodes.".

Definition get_nearest_neighbour (coords_rad : list coord)
    (mask : option (Tensor bool)) : result NearestNeighbors :=
  _ <- py_assert (mask_shape_ok (length coords_rad) mask) mask_message ;;
  let nearest_neighbour :=
    {| metric := "haversine"; n_jobs := 4; fit_X := None |} in
  fit nearest_neighbour coords_rad.

(** [dists[dists > 0]]: the positive entries, in row-major order. *)
Definition positive_entries (dists : list (list F)) : list F :=
  filter (fun d => fgtb d (of_int 0)) (concat dists).

Definition get_grid_reference_distance (coords_rad : list coord)
    (mask : option (Tensor bool)) : result F :=
  nearest_neighbours <- get_nearest_neighbour coords_rad mask ;;
  dists <- kneighbors nearest_neighbours coords_rad 2 ;;
  ndarray_max (positive_entries dists).

(** *** The brute-force reference of the specification *)

Definition less_of (a b : F) : F := if fltb b a then b else a.
Definition greater_of (a b : F) : F := if fltb a b then b else a.

Definition minimum_of (l : list F) : option F :=
  match l with
  | [] => None
  | x :: rest => Some (fold_left less_of rest x)
  end.

Definition maximum_of (l : list F) : option F :=
  match l with
  | [] => None
  | x :: rest => Some (fold_left greater_of rest x)
  end.

(** Every point but the one at index [i]. *)
Definition other_points (coords : list coord) (i : nat) : list coord :=
  firstn i coords ++ skipn (S i) coords.

(** The least positive distance from point [i] to another point. *)
Definition min_positive_distance (coords : list coord) (i : nat)
    : option F :=
  match nth_error coords i with
  | None => None
  | Some p =>
      minimum_of
        (filter (fun d => fgtb d (of_int 0))
                (map (haversine p) (other_points coords i)))
  end.

(** The maximum over all points of [min_positive_distance]: the quadratic
    computation the specification compares the result with. *)
Definition brute_force_reference_distance (coords : list coord)
    : option F :=
  maximum_of
    (flat_map
       (fun i => match min_positive_distance coords i with
                 | Some d => [d]
                 | None => []
                 end)
       (seq 0 (length coords))).
End Neighbours.

Arguments coord F : clear implicits.
Arguments NearestNeighbors F : clear implicits.

(** ** get_index_in_outer_join *)

Section OuterJoin.
Context {F : Type} `{Scalar F}.

Definition broadcast_message : string :=
  "The size of tensor a must match the size of tensor b at non-singleton dimension 1".

(** One row of [tensor == vector] under torch's broadcasting rule for the
    last dimension. *)
Definition row_eq (row vector : list F) : result (list bool) :=
  if (length row =? length vector)%nat then
    Return (map (fun xv => feqb (fst xv) (snd xv)) (combine row vector))
  else
    match row, vector with
    | _, [v] => Return (map (fun x => feqb x v) row)
    | [x], _ => Return (map (fun v => feqb x v) vector)
    | _, _ => Raise (RuntimeError broadcast_message)
    end.

(** [torch.all(tensor == vector, axis=1)].  The matrix is the list of its
    rows, so one with no rows has no column count left: the widths are
    compared row by row, and for a matrix of shape [(0, N)] nothing is
    compared, where torch would still reject a vector it cannot broadcast
    to [N] columns. *)
Fixpoint all_rows_eq (tensor : list (list F)) (vector : list F)
    : result (list bool) :=
  match tensor with
  | [] => Return []
  | row :: rest =>
      eqs <- row_eq row vector ;;
      tl <- all_rows_eq rest vector ;;
      Return (forallb (fun b => b) eqs :: tl)
  end.

(** [torch.where(mask)[0]]: the positions that hold [True]. *)
Fixpoint where_true (start : nat) (mask : list bool) : list nat :=
  match mask with
  | [] => []
  | b :: rest =>
      if b then start :: where_true (S start) rest
      else where_true (S start) rest
  end.

(** [int(t)] of an index tensor: defined on one element only (torch raises
    on any other size; the class of the exception varies with its version). *)
Definition tensor_to_int (t : list nat) : result Z :=
  match t with
  | [i] => Return (Z.of_nat i)
  | _ => Raise (ValueError "only one element tensors can be converted to Python scalars")
  end.

Definition get_index_in_outer_join (vector : list F)
    (tensor : list (list F)) : result Z :=
  mask <- all_rows_eq tensor vector ;;
  if existsb (fun b => b) mask then tensor_to_int (where_true 0 mask)
  else Return (-1).

(** [M[i] == v] element-wise, for a row and a vector of one length. *)
Definition row_matches (row vector : list F) : bool :=
  (length row =? length vector)%nat
  && forallb (fun xv => feqb (fst xv) (snd xv)) (combine row vector).
End OuterJoin.

Example locate_present :
  get_index_in_outer_join (F := Z) [3; 4] [[1; 2]; [3; 4]; [5; 6]] = Return 1.
Proof. reflexivity. Qed.

Example locate_absent :
  get_index_in_outer_join (F := Z) [9; 9] [[1; 2]; [3; 4]; [5; 6]] = Return (-1).
Proof. reflexivity. Qed.

Example locate_twice :
  get_index_in_outer_join (F := Z) [3; 4] [[3; 4]; [1; 2]; [3; 4]] =
  Raise (ValueError "only one element tensors can be converted to Python scalars").
Proof. reflexivity. Qed.

(** * Verification *)

(** ** Lists: combining, blocks, reordering *)

Lemma combine_app_same {A B : Type} (l1 l2 : list A) (r1 r2 : list B) :
  length l1 = length r1 ->
  combine (l1 ++ l2) (r1 ++ r2) = combine l1 r1 ++ combine l2 r2.
Proof.
  revert r1; induction l1 as [|a l1 IH]; intros [|b r1] Hlen;
    simpl in *; try discriminate; auto.
  f_equal; apply IH; congruence.
Qed.

Lemma block_of_concat {A : Type} (n : nat) (blocks : list (list A)) :
  Forall (fun b => length b = n) blocks ->
  forall k, firstn n (skipn (k * n) (concat blocks)) = nth k blocks [].
Proof.
  induction 1 as [|b blocks Hb _ IH]; intros k.
  - rewrite skipn_nil, firstn_nil; destruct k; reflexivity.
  - destruct k as [|k]; simpl.
    + rewrite firstn_app, <- Hb, firstn_all, Nat.sub_diag; simpl.
      apply app_nil_r.
    + rewrite <- (IH k); f_equal.
      rewrite skipn_app, <- Hb.
      rewrite skipn_all2 by lia; simpl.
      f_equal; lia.
Qed.

Lemma in_firstn {A : Type} (n : nat) (l : list A) (x : A) :
  In x (firstn n l) -> In x l.
Proof.
  intros Hx. rewrite <- (firstn_skipn n l). apply in_or_app; auto.
Qed.

Lemma flat_map_cons_perm {A B : Type} (h : B -> A) (g : B -> list A)
    (l : list B) :
  Permutation (flat_map (fun b => h b :: g b) l) (map h l ++ flat_map g l).
Proof.
  induction l as [|b l IH]; simpl; auto.
  constructor.
  rewrite IH, app_assoc, app_assoc.
  apply Permutation_app_tail, Permutation_app_comm.
Qed.

(** ** add_margin *)

Section AddMarginFacts.
Context {F : Type} {S : Scalar F}.

Lemma ndarray_add_length (arr : list F) (x : F) :
  length (ndarray_add arr x) = length arr.
Proof. apply length_map. Qed.

(** The loops leave the nine blocks in the accumulators, in order. *)
Lemma margin_loops_blocks (lats lons : list F) (margin : F) :
  margin_loops lats lons margin =
  (map (lat_block lats margin) (seq 0 9),
   map (lon_block lons margin) (seq 0 9)).
Proof. reflexivity. Qed.

Lemma add_margin_checked (lats lons : list F) (margin : F) :
  fgeb margin (of_int 0) = true ->
  feqb margin (of_int 0) = false ->
  add_margin lats lons margin =
  Return (concat (map (lat_block lats margin) (seq 0 9)),
          concat (map (lon_block lons margin) (seq 0 9))).
Proof.
  intros Hge Hne. unfold add_margin, py_assert.
  rewrite Hge; cbn [bind]. rewrite Hne, margin_loops_blocks. reflexivity.
Qed.

Lemma add_margin_positive {L : ScalarLaws F} (lats lons : list F)
    (margin : F) :
  fgtb margin (of_int 0) = true ->
  add_margin lats lons margin =
  Return (concat (map (lat_block lats margin) (seq 0 9)),
          concat (map (lon_block lons margin) (seq 0 9))).
Proof.
  intros Hgt. apply add_margin_checked; [apply gt0_ge0 | apply gt0_ne0]; exact Hgt.
Qed.

Lemma blocks_length (f : nat -> list F) (n : nat) (ks : list nat) :
  (forall k, length (f k) = n) ->
  length (concat (map f ks)) = (length ks * n)%nat.
Proof.
  intros Hf. induction ks as [|k ks IH]; simpl; auto.
  rewrite length_app, Hf, IH. reflexivity.
Qed.

(** Pairing a shifted latitude array with a shifted longitude array shifts
    the paired points. *)
Lemma combine_shifted (lats lons : list F) (x y : F) :
  combine (ndarray_add lats x) (ndarray_add lons y) =
  map (fun p => (fadd (fst p) x, fadd (snd p) y)) (combine lats lons).
Proof.
  revert lons; induction lats as [|a lats IH]; intros [|b lons]; simpl; auto.
  f_equal; apply IH.
Qed.

(** The zipped output, block by block. *)
Lemma combine_blocks (lats lons : list F) (margin : F) :
  length lats = length lons ->
  combine (concat (map (lat_block lats margin) (seq 0 9)))
          (concat (map (lon_block lons margin) (seq 0 9))) =
  flat_map
    (fun a => flat_map
       (fun b => map (fun p => (fadd (fst p) (scale a margin),
                                fadd (snd p) (scale b margin)))
                     (combine lats lons)) signs)
    signs.
Proof.
  intros Hlen.
  assert (Hb : forall j k, length (lat_block lats margin j) =
                           length (lon_block lons margin k)).
  { intros j k. unfold lat_block, lon_block.
    rewrite !ndarray_add_length. exact Hlen. }
  cbn [seq map concat flat_map signs].
  repeat (rewrite combine_app_same by apply Hb).
  unfold lat_block, lon_block. rewrite !combine_shifted.
  cbn [combine app]. rewrite !app_nil_r, <- !app_assoc. reflexivity.
Qed.
End AddMarginFacts.

Section AddMarginClaims.
Context {F : Type} {S : Scalar F} {L : ScalarLaws F}.

(** The zipped output holds the nine variants of every input point, each
    variant of each point once. *)
Lemma add_margin_output_perm (lats lons : list F) (margin : F) :
  length lats = length lons ->
  Permutation
    (combine (concat (map (lat_block lats margin) (seq 0 9)))
             (concat (map (lon_block lons margin) (seq 0 9))))
    (flat_map (offset_variants margin) (combine lats lons)).
Proof.
  intros Hlen. rewrite combine_blocks by exact Hlen.
  unfold offset_variants. cbn [signs flat_map map app].
  rewrite !app_nil_r, <- !app_assoc.
  symmetry.
  repeat (etransitivity; [apply flat_map_cons_perm|];
          apply Permutation_app_head).
  induction (combine lats lons); simpl; auto.
Qed.

(** C2. For parallel sequences of length [N] and a margin [m > 0],
    [add_margin] returns two parallel sequences of length exactly [9 * N],
    and the returned points are, as a multiset, the nine offset variants
    [(lat + a*m, lon + b*m)], [a], [b] in [{-1, 0, 1}], of every input
    point, each variant of each point taken once.  In particular every
    variant is in the result, and when no two variants are the same point
    the result repeats none. *)
Theorem add_margin_nine_variants (lats lons : list F) (margin : F) :
  length lats = length lons ->
  fgtb margin (of_int 0) = true ->
  exists latitudes longitudes,
    add_margin lats lons margin = Return (latitudes, longitudes)
    /\ length latitudes = (9 * length lats)%nat
    /\ length longitudes = (9 * length lats)%nat
    /\ Permutation (combine latitudes longitudes)
                   (flat_map (offset_variants margin) (combine lats lons))
    /\ (forall p v, In p (combine lats lons) ->
                    In v (offset_variants margin p) ->
                    In v (combine latitudes longitudes))
    /\ (NoDup (flat_map (offset_variants margin) (combine lats lons)) ->
        NoDup (combine latitudes longitudes)).
Proof.
  intros Hlen Hgt.
  eexists; eexists; split; [apply add_margin_positive; exact Hgt|].
  pose proof (add_margin_output_perm lats lons margin Hlen) as Hperm.
  split; [|split; [|split; [exact Hperm|split]]].
  - rewrite blocks_length with (n := length lats); [reflexivity|].
    intros k; apply ndarray_add_length.
  - rewrite blocks_length with (n := length lats); [reflexivity|].
    intros k; unfold lon_block; rewrite ndarray_add_length; auto.
  - intros p v Hp Hv.
    apply (Permutation_in _ (Permutation_sym Hperm)).
    apply in_flat_map; exists p; auto.
  - intros Hnd. apply (Permutation_NoDup (Permutation_sym Hperm) Hnd).
Qed.

(** C3. For an input of length [N] and a margin [m > 0] the output is nine
    contiguous blocks of [N] points; block [k] (counted from 0) is the
    input, in its order, with latitude offset [(k / 3 - 1) * m] and
    longitude offset [(k mod 3 - 1) * m]: the offsets run through
    (-1,-1), (-1,0), (-1,+1), (0,-1), ..., (+1,+1), latitude sign in the
    outer loop. *)
Theorem add_margin_block_order (lats lons : list F) (margin : F) :
  length lats = length lons ->
  fgtb margin (of_int 0) = true ->
  exists latitudes longitudes,
    add_margin lats lons margin = Return (latitudes, longitudes)
    /\ length latitudes = (9 * length lats)%nat
    /\ length longitudes = (9 * length lats)%nat
    /\ (forall k, (k < 9)%nat ->
         firstn (length lats) (skipn (k * length lats) latitudes)
           = ndarray_add lats (scale (Z.of_nat k / 3 - 1) margin)
         /\ firstn (length lats) (skipn (k * length lats) longitudes)
           = ndarray_add lons (scale (Z.of_nat k mod 3 - 1) margin))
    /\ map (fun k => (Z.of_nat k / 3 - 1, Z.of_nat k mod 3 - 1)) (seq 0 9)
       = [(-1, -1); (-1, 0); (-1, 1); (0, -1); (0, 0); (0, 1);
          (1, -1); (1, 0); (1, 1)].
Proof.
  intros Hlen Hgt.
  eexists; eexists; split; [apply add_margin_positive; exact Hgt|].
  assert (Hla : forall k, length (lat_block lats margin k) = length lats)
    by (intros k; apply ndarray_add_length).
  assert (Hlo : forall k, length (lon_block lons margin k) = length lats)
    by (intros k; unfold lon_block; rewrite ndarray_add_length; auto).
  split; [|split; [|split; [|reflexivity]]].
  - rewrite blocks_length with (n := length lats); auto.
  - rewrite blocks_length with (n := length lats); auto.
  - intros k Hk.
    rewrite !block_of_concat
      by (apply Forall_forall; intros b Hb; apply in_map_iff in Hb;
          destruct Hb as [j [<- _]]; auto).
    do 9 (destruct k as [|k]; [split; reflexivity|]). lia.
Qed.

(** C4. With a margin equal to 0 [add_margin] returns the two input
    sequences themselves, not nine zero-offset copies. *)
Theorem add_margin_zero_identity (lats lons : list F) (margin : F) :
  feqb margin (of_int 0) = true ->
  add_margin lats lons margin = Return (lats, lons).
Proof.
  intros Heq. unfold add_margin, py_assert.
  rewrite (eq0_ge0 _ Heq); cbn [bind]. rewrite Heq. reflexivity.
Qed.

(** C8. A negative margin makes [add_margin] fail at once, on its
    assertion; with a non-negative margin the assertion passes and the
    call returns. *)
Theorem add_margin_precondition (lats lons : list F) (margin : F) :
  (fltb margin (of_int 0) = true ->
   add_margin lats lons margin =
   Raise (AssertionError "Margin must be non-negative"))
  /\ (fgeb margin (of_int 0) = true ->
      py_assert (fgeb margin (of_int 0)) "Margin must be non-negative"
        = Return tt
      /\ exists out, add_margin lats lons margin = Return out).
Proof.
  split.
  - intros Hneg. unfold add_margin, py_assert.
    rewrite (lt0_not_ge0 _ Hneg). reflexivity.
  - intros Hge. unfold add_margin, py_assert. rewrite Hge; cbn [bind].
    split; [reflexivity|].
    destruct (feqb margin (of_int 0)); [eexists; reflexivity|].
    destruct (margin_loops lats lons margin); eexists; reflexivity.
Qed.
End AddMarginClaims.

(** ** get_index_in_outer_join *)

Section OuterJoinFacts.
Context {F : Type} {S : Scalar F}.

Lemma forallb_id_map {A : Type} (f : A -> bool) (l : list A) :
  forallb (fun b => b) (map f l) = forallb f l.
Proof. induction l as [|a l IH]; simpl; congruence. Qed.

(** On a matrix whose rows have the length of the vector, the row mask is
    [row_matches] row by row and broadcasting never fails. *)
Lemma all_rows_eq_matches (vector : list F) (tensor : list (list F)) :
  Forall (fun row => length row = length vector) tensor ->
  all_rows_eq tensor vector =
  Return (map (fun row => row_matches row vector) tensor).
Proof.
  induction 1 as [|row rest Hrow _ IH]; simpl; [reflexivity|].
  unfold row_eq, row_matches. rewrite IH, Hrow, Nat.eqb_refl; simpl.
  rewrite forallb_id_map. reflexivity.
Qed.

Lemma where_true_none (mask : list bool) (start : nat) :
  (forall j, nth_error mask j <> Some true) -> where_true start mask = [].
Proof.
  revert start; induction mask as [|b rest IH]; intros start Hnone; simpl.
  - reflexivity.
  - destruct b.
    + exfalso; apply (Hnone 0%nat); reflexivity.
    + apply IH; intros j; apply (Hnone (Datatypes.S j)).
Qed.

Lemma where_true_single (mask : list bool) (start i : nat) :
  nth_error mask i = Some true ->
  (forall j, nth_error mask j = Some true -> j = i) ->
  where_true start mask = [(start + i)%nat].
Proof.
  revert start i; induction mask as [|b rest IH]; intros start i Hi Huniq.
  - destruct i; discriminate.
  - destruct i as [|i]; simpl in Hi.
    + injection Hi as ->; simpl.
      rewrite where_true_none, Nat.add_0_r; [reflexivity|].
      intros j Hj. specialize (Huniq (Datatypes.S j) Hj). discriminate.
    + destruct b.
      * specialize (Huniq 0%nat eq_refl). discriminate.
      * simpl. rewrite (IH (Datatypes.S start) i Hi).
        -- f_equal; lia.
        -- intros j Hj. specialize (Huniq (Datatypes.S j) Hj). lia.
Qed.

(** Row [i] of the matrix equals the vector, and no other row does. *)
Definition only_match (vector : list F) (tensor : list (list F)) (i : nat)
    : Prop :=
  (exists row, nth_error tensor i = Some row
               /\ row_matches row vector = true)
  /\ forall j row, nth_error tensor j = Some row ->
                   row_matches row vector = true -> j = i.

(** C5. For a vector of length [N] and a matrix of [N] columns: when
    exactly one row index [i] has [M[i] == v] element-wise (exact
    equality), the call returns [i]; when no row equals [v] it returns
    [-1]. *)
Theorem get_index_in_outer_join_correct (vector : list F)
    (tensor : list (list F)) :
  Forall (fun row => length row = length vector) tensor ->
  (forall i, only_match vector tensor i ->
             get_index_in_outer_join vector tensor = Return (Z.of_nat i))
  /\ ((forall row, In row tensor -> row_matches row vector = false) ->
      get_index_in_outer_join vector tensor = Return (-1)).
Proof.
  intros Hshape. unfold get_index_in_outer_join.
  rewrite all_rows_eq_matches by exact Hshape; cbn [bind].
  set (mask := map (fun row => row_matches row vector) tensor).
  assert (Hmask : forall j, nth_error mask j = Some true <->
            exists row, nth_error tensor j = Some row
                        /\ row_matches row vector = true).
  { intros j; unfold mask; rewrite nth_error_map.
    destruct (nth_error tensor j) as [row|]; simpl; split.
    - intros [= Hrow]; eauto.
    - intros [row' [[= <-] Hrow]]; congruence.
    - discriminate.
    - intros [row' [[=] _]]. }
  split.
  - intros i [Hi Huniq].
    assert (Hany : existsb (fun b => b) mask = true).
    { apply existsb_exists; exists true; split; [|reflexivity].
      apply (nth_error_In mask i), Hmask, Hi. }
    rewrite Hany, (@where_true_single mask 0 i).
    + reflexivity.
    + apply Hmask, Hi.
    + intros j Hj; apply Hmask in Hj; destruct Hj as [row [Hj Hrow]].
      eapply Huniq; eauto.
  - intros Habsent.
    assert (Hany : existsb (fun b => b) mask = false).
    { apply not_true_is_false; intros Hex.
      apply existsb_exists in Hex; destruct Hex as [b [Hin ->]].
      unfold mask in Hin; apply in_map_iff in Hin.
      destruct Hin as [row [Hrow Hin]].
      rewrite (Habsent row Hin) in Hrow; discriminate. }
    rewrite Hany; reflexivity.
Qed.

Lemma where_true_some (mask : list bool) (start j : nat) :
  nth_error mask j = Some true ->
  exists k rest, where_true start mask = k :: rest.
Proof.
  revert start j; induction mask as [|b mask IH]; intros start j Hj.
  - destruct j; discriminate.
  - simpl. destruct b; [eauto|].
    destruct j as [|j]; [discriminate|]. apply (IH _ j Hj).
Qed.

Lemma where_true_two (mask : list bool) (start i j : nat) :
  (i < j)%nat ->
  nth_error mask i = Some true -> nth_error mask j = Some true ->
  exists k1 k2 rest, where_true start mask = k1 :: k2 :: rest.
Proof.
  revert start i j; induction mask as [|b mask IH]; intros start i j Hij Hi Hj.
  - destruct i; discriminate.
  - destruct j as [|j]; [lia|]. simpl in Hj.
    destruct i as [|i]; simpl in Hi.
    + injection Hi as ->. simpl.
      destruct (where_true_some mask (Datatypes.S start) j Hj)
        as [k [rest E]].
      rewrite E; eauto.
    + assert (Hlt : (i < j)%nat) by lia.
      destruct (IH (Datatypes.S start) i j Hlt Hi Hj) as [k1 [k2 [rest E]]].
      simpl. rewrite E. destruct b; eauto.
Qed.

(** When two rows equal the vector the conversion [int(...)] of the
    two-element index tensor fails: the call raises instead of choosing. *)
Theorem get_index_in_outer_join_ambiguous (vector : list F)
    (tensor : list (list F)) (i j : nat) (ri rj : list F) :
  Forall (fun row => length row = length vector) tensor ->
  i <> j ->
  nth_error tensor i = Some ri -> row_matches ri vector = true ->
  nth_error tensor j = Some rj -> row_matches rj vector = true ->
  get_index_in_outer_join vector tensor =
  Raise (ValueError
           "only one element tensors can be converted to Python scalars").
Proof.
  intros Hshape Hne Hi Hri Hj Hrj. unfold get_index_in_outer_join.
  rewrite all_rows_eq_matches by exact Hshape; cbn [bind].
  set (mask := map (fun row => row_matches row vector) tensor).
  assert (Hmi : nth_error mask i = Some true)
    by (unfold mask; rewrite nth_error_map, Hi; simpl; congruence).
  assert (Hmj : nth_error mask j = Some true)
    by (unfold mask; rewrite nth_error_map, Hj; simpl; congruence).
  assert (Hany : existsb (fun b => b) mask = true).
  { apply existsb_exists; exists true; split; [|reflexivity].
    apply (nth_error_In mask i Hmi). }
  rewrite Hany.
  assert (Htwo : exists k1 k2 rest, where_true 0 mask = k1 :: k2 :: rest).
  { destruct (Nat.lt_gt_cases i j) as [Hcases _].
    destruct (Hcases Hne) as [Hlt|Hlt].
    - exact (where_true_two mask 0 Hlt Hmi Hmj).
    - exact (where_true_two mask 0 Hlt Hmj Hmi). }
  destruct Htwo as [k1 [k2 [rest E]]]. rewrite E. reflexivity.
Qed.
End OuterJoinFacts.

(** ** Nearest neighbours: the mask, the fitted points, failures *)

Lemma shape_eqb_eq (s1 s2 : list nat) : shape_eqb s1 s2 = true <-> s1 = s2.
Proof.
  revert s2; induction s1 as [|a s1 IH]; intros [|b s2]; simpl;
    try (split; [discriminate | congruence]); [tauto|].
  rewrite andb_true_iff, Nat.eqb_eq, IH. split.
  - intros [-> ->]; reflexivity.
  - intros [= -> ->]; auto.
Qed.

(** A mask the assertion of [get_nearest_neighbour] lets through: none, or
    one of shape [(N, 1)]. *)
Definition valid_mask (n : nat) (mask : option (Tensor bool)) : Prop :=
  match mask with
  | None => True
  | Some m => shape m = [n; 1%nat]
  end.

Lemma mask_shape_ok_valid (n : nat) (mask : option (Tensor bool)) :
  mask_shape_ok n mask = true <-> valid_mask n mask.
Proof.
  destruct mask as [m|]; simpl; [apply shape_eqb_eq | tauto].
Qed.

Section NeighbourFacts.
Context {F : Type} {S : Scalar F}.
Variable haversine : coord F -> coord F -> F.

(** The estimator before [fit]. *)
Definition unfitted : NearestNeighbors F :=
  {| metric := "haversine"; n_jobs := 4; fit_X := None |}.

Lemma get_nearest_neighbour_valid (coords : list (coord F))
    (mask : option (Tensor bool)) :
  valid_mask (length coords) mask ->
  get_nearest_neighbour coords mask = fit unfitted coords.
Proof.
  intros Hv; apply mask_shape_ok_valid in Hv.
  unfold get_nearest_neighbour, py_assert; rewrite Hv; reflexivity.
Qed.

Lemma fit_stores (nn fitted : NearestNeighbors F) (X : list (coord F)) :
  fit nn X = Return fitted -> fit_X fitted = Some X.
Proof.
  unfold fit. destruct (negb _); [discriminate|].
  destruct (_ =? _)%nat; [discriminate|].
  intros [= <-]; reflexivity.
Qed.

Lemma fit_no_assertion (nn : NearestNeighbors F) (X : list (coord F))
    (msg : string) :
  fit nn X <> Raise (AssertionError msg).
Proof.
  unfold fit. destruct (negb _); [discriminate|].
  destruct (_ =? _)%nat; discriminate.
Qed.

Lemma insert_sorted_perm (x : F) (l : list F) :
  Permutation (insert_sorted x l) (x :: l).
Proof.
  induction l as [|y l IH]; simpl; auto.
  destruct (fleb x y); auto.
  rewrite IH; apply perm_swap.
Qed.

Lemma sort_ascending_perm (l : list F) : Permutation (sort_ascending l) l.
Proof.
  induction l as [|x l IH]; simpl; auto.
  rewrite insert_sorted_perm; auto.
Qed.

Lemma np_maximum_cases (a b : F) : np_maximum a b = a \/ np_maximum a b = b.
Proof. unfold np_maximum; destruct (_ || _); auto. Qed.

Lemma fold_np_maximum_in (rest : list F) (x : F) :
  In (fold_left np_maximum rest x) (x :: rest).
Proof.
  revert x; induction rest as [|y rest IH]; intros x; [left; reflexivity|].
  cbn [fold_left].
  destruct (IH (np_maximum x y)) as [Hhd|Htl].
  - destruct (np_maximum_cases x y) as [E|E]; rewrite E in Hhd |- *.
    + left; exact Hhd.
    + right; left; exact Hhd.
  - right; right; exact Htl.
Qed.

(** What [get_grid_reference_distance] computes once the mask, the input
    validation and the neighbour count are through. *)
Lemma get_grid_reference_distance_run (coords : list (coord F))
    (mask : option (Tensor bool)) :
  valid_mask (length coords) mask ->
  forallb coord_finite coords = true ->
  (2 <= length coords)%nat ->
  get_grid_reference_distance haversine coords mask =
  ndarray_max
    (positive_entries (map (kneighbors_row haversine coords 2) coords)).
Proof.
  intros Hv Hfin Hlen. unfold get_grid_reference_distance.
  rewrite get_nearest_neighbour_valid by exact Hv.
  unfold fit, kneighbors. rewrite Hfin; cbn [negb].
  destruct (Nat.eqb_spec (length coords) 0) as [E|_]; [lia|].
  cbn [bind fit_X].
  destruct (Nat.ltb_spec (length coords) 2) as [E|_]; [lia|].
  reflexivity.
Qed.

(** Whatever is not such a run ends in a [ValueError] of scikit-learn. *)
Lemma get_grid_reference_distance_rejected (coords : list (coord F))
    (mask : option (Tensor bool)) :
  valid_mask (length coords) mask ->
  forallb coord_finite coords = false \/ (length coords < 2)%nat ->
  exists msg,
    get_grid_reference_distance haversine coords mask
      = Raise (ValueError msg).
Proof.
  intros Hv Hbad. unfold get_grid_reference_distance.
  rewrite get_nearest_neighbour_valid by exact Hv.
  unfold fit, kneighbors.
  destruct (forallb coord_finite coords) eqn:Hfin; cbn [negb bind];
    [|eexists; reflexivity].
  destruct Hbad as [Hbad|Hlen]; [discriminate|].
  destruct (Nat.eqb_spec (length coords) 0) as [E|_];
    [eexists; reflexivity|].
  cbn [bind fit_X negb].
  destruct (Nat.ltb_spec (length coords) 2) as [_|E]; [|lia].
  eexists; reflexivity.
Qed.

Lemma positive_entries_positive (dists : list (list F)) (d : F) :
  In d (positive_entries dists) -> fgtb d (of_int 0) = true.
Proof. unfold positive_entries; intros Hd; apply filter_In in Hd; tauto. Qed.

Lemma kneighbors_row_in (fitted : list (coord F)) (k : nat) (q : coord F) (d : F) :
  In d (kneighbors_row haversine fitted k q) ->
  exists p, In p fitted /\ d = haversine q p.
Proof.
  unfold kneighbors_row; intros Hd.
  apply in_firstn in Hd.
  apply (Permutation_in _ (sort_ascending_perm _)) in Hd.
  apply in_map_iff in Hd; destruct Hd as [p [<- Hp]]; eauto.
Qed.
End NeighbourFacts.

Section NeighbourClaims.
Context {F : Type} {S : Scalar F}.
Variable haversine : coord F -> coord F -> F.

(** C6. For [N] points, a mask whose shape is not exactly [(N, 1)] makes
    [get_nearest_neighbour] fail on its assertion; with a mask of shape
    [(N, 1)], or with no mask, the assertion passes and the call is the
    fit of the estimator. *)
Theorem get_nearest_neighbour_shape_check (coords : list (coord F)) :
  (forall m : Tensor bool,
      shape m <> [length coords; 1%nat] ->
      get_nearest_neighbour coords (Some m)
        = Raise (AssertionError mask_message))
  /\ (forall mask : option (Tensor bool),
        mask = None \/ (exists m, mask = Some m
                                  /\ shape m = [length coords; 1%nat]) ->
        py_assert (mask_shape_ok (length coords) mask) mask_message
          = Return tt
        /\ get_nearest_neighbour coords mask = fit unfitted coords
        /\ get_nearest_neighbour coords mask
             <> Raise (AssertionError mask_message)).
Proof.
  split.
  - intros m Hshape. unfold get_nearest_neighbour, py_assert; simpl.
    destruct (shape_eqb (shape m) [length coords; 1%nat]) eqn:E;
      [|reflexivity].
    apply shape_eqb_eq in E; contradiction.
  - intros mask Hmask.
    assert (Hv : valid_mask (length coords) mask)
      by (destruct Hmask as [->|[m [-> Hm]]]; simpl; auto).
    pose proof (proj2 (mask_shape_ok_valid _ _) Hv) as Hok.
    unfold py_assert; rewrite Hok.
    rewrite get_nearest_neighbour_valid by exact Hv.
    repeat split. apply fit_no_assertion.
Qed.

(** C7. Two masks of valid shape (no mask included) give the same fitted
    estimator, fitted on the whole coordinate set whatever the masks hold,
    and hence the same reference distance. *)
Theorem mask_content_ignored (coords : list (coord F))
    (mask1 mask2 : option (Tensor bool)) :
  valid_mask (length coords) mask1 ->
  valid_mask (length coords) mask2 ->
  get_nearest_neighbour coords mask1 = get_nearest_neighbour coords mask2
  /\ (forall fitted, get_nearest_neighbour coords mask1 = Return fitted ->
                     fit_X fitted = Some coords)
  /\ get_grid_reference_distance haversine coords mask1
     = get_grid_reference_distance haversine coords mask2.
Proof.
  intros Hv1 Hv2.
  assert (E : get_nearest_neighbour coords mask1
              = get_nearest_neighbour coords mask2)
    by (rewrite !get_nearest_neighbour_valid by assumption; reflexivity).
  split; [exact E|split].
  - rewrite get_nearest_neighbour_valid by exact Hv1.
    intros fitted; apply fit_stores.
  - unfold get_grid_reference_distance. rewrite E. reflexivity.
Qed.

(** C10. A value returned by [get_grid_reference_distance] is strictly
    positive: it is an entry of the distance matrix that passed the filter
    [dists > 0]. *)
Theorem reference_distance_positive (coords : list (coord F))
    (mask : option (Tensor bool)) (v : F) :
  get_grid_reference_distance haversine coords mask = Return v ->
  fgtb v (of_int 0) = true.
Proof.
  unfold get_grid_reference_distance.
  destruct (get_nearest_neighbour coords mask) as [nn|e]; [|discriminate].
  cbn [bind].
  destruct (kneighbors haversine nn coords 2) as [dists|e]; [|discriminate].
  cbn [bind]. unfold ndarray_max.
  destruct (positive_entries dists) as [|x rest] eqn:E; [discriminate|].
  intros [= <-].
  apply (@positive_entries_positive F S dists). rewrite E.
  apply fold_np_maximum_in.
Qed.

(** All points coincide: every distance between two of them is zero. *)
Definition coincident (coords : list (coord F)) : Prop :=
  forall p q, In p coords -> In q coords ->
              feqb (haversine p q) (of_int 0) = true.

Lemma coincident_no_positive {L : ScalarLaws F} (coords : list (coord F)) :
  coincident coords ->
  positive_entries (map (kneighbors_row haversine coords 2) coords) = [].
Proof.
  intros Hco. unfold positive_entries.
  destruct (filter _ _) as [|d rest] eqn:E; [reflexivity|exfalso].
  assert (Hd : In d (d :: rest)) by (left; reflexivity).
  rewrite <- E in Hd. apply filter_In in Hd; destruct Hd as [Hd Hpos].
  apply in_concat in Hd; destruct Hd as [row [Hrow Hd]].
  apply in_map_iff in Hrow; destruct Hrow as [q [<- Hq]].
  apply kneighbors_row_in in Hd; destruct Hd as [p [Hp ->]].
  rewrite (eq0_not_gt0 _ (Hco q p Hq Hp)) in Hpos. discriminate.
Qed.

(** On coincident points the call ends in a [ValueError]: of scikit-learn
    when the input is rejected or has fewer than two points, of NumPy's
    [max] on the empty selection otherwise. *)
Lemma coincident_raises {L : ScalarLaws F} (coords : list (coord F))
    (mask : option (Tensor bool)) :
  valid_mask (length coords) mask ->
  coincident coords ->
  (exists msg,
      get_grid_reference_distance haversine coords mask
        = Raise (ValueError msg))
  /\ (forallb coord_finite coords = true -> (2 <= length coords)%nat ->
      get_grid_reference_distance haversine coords mask
        = Raise (ValueError
            "zero-size array to reduction operation maximum which has no identity")).
Proof.
  intros Hv Hco.
  assert (Hrun : forallb coord_finite coords = true ->
                 (2 <= length coords)%nat ->
                 get_grid_reference_distance haversine coords mask
                 = Raise (ValueError
                     "zero-size array to reduction operation maximum which has no identity")).
  { intros Hfin Hlen.
    rewrite get_grid_reference_distance_run by assumption.
    rewrite coincident_no_positive by exact Hco. reflexivity. }
  split; [|exact Hrun].
  destruct (forallb coord_finite coords) eqn:Hfin.
  - destruct (Nat.le_gt_cases 2 (length coords)) as [Hlen|Hlen].
    + eexists; apply Hrun; auto.
    + apply get_grid_reference_distance_rejected; auto.
  - apply get_grid_reference_distance_rejected; auto.
Qed.

(** C9, as the code has it. On a coordinate set whose points all coincide
    [get_grid_reference_distance] neither returns a value nor signals an
    error of its own: it ends in the [ValueError] of the library underneath,
    which for two or more accepted points is NumPy's refusal to take the
    maximum of an empty array. *)
Theorem reference_distance_coincident {L : ScalarLaws F}
    (coords : list (coord F)) (mask : option (Tensor bool)) :
  valid_mask (length coords) mask ->
  coincident coords ->
  (exists msg,
      get_grid_reference_distance haversine coords mask
        = Raise (ValueError msg))
  /\ propagates_library_error
       (get_grid_reference_distance haversine coords mask)
  /\ (forallb coord_finite coords = true -> (2 <= length coords)%nat ->
      get_grid_reference_distance haversine coords mask
        = Raise (ValueError
            "zero-size array to reduction operation maximum which has no identity")).
Proof.
  intros Hv Hco.
  destruct (coincident_raises mask Hv Hco) as [[msg Hmsg] Hrun].
  split; [exists msg; exact Hmsg|].
  split; [rewrite Hmsg; exact I | exact Hrun].
Qed.
End NeighbourClaims.

(** ** Sorting and extrema on ordinary values *)

Lemma Forall_perm {A : Type} (P : A -> Prop) (xs ys : list A) :
  Permutation xs ys -> Forall P xs -> Forall P ys.
Proof.
  intros Hp Hxs. rewrite Forall_forall in *. intros a Ha.
  apply Hxs, (Permutation_in _ (Permutation_sym Hp) Ha).
Qed.

(** A total order on all scalars makes every scalar ordinary. *)
Lemma OrderLaws_ordinary {F : Type} {S : Scalar F} (O : OrderLaws F) :
  OrdinaryLaws (fun _ : F => True).
Proof.
  split; intros.
  - exact I.
  - apply fleb_total.
  - eapply fleb_trans; eassumption.
  - apply fleb_antisym; assumption.
  - apply fltb_fleb.
  - apply feqb_refl.
Qed.


Section OrderFacts.
Context {F : Type} {S : Scalar F}.

Definition le_true (x y : F) : Prop := fleb x y = true.

Variable ordinary : F -> Prop.
Hypothesis laws : OrdinaryLaws ordinary.

Lemma fleb_refl (x : F) : ordinary x -> fleb x x = true.
Proof. intros Hx. destruct (ord_total laws x x Hx Hx); assumption. Qed.

Lemma fleb_false_flip (x y : F) :
  ordinary x -> ordinary y -> fleb x y = false -> fleb y x = true.
Proof.
  intros Hx Hy Hxy; destruct (ord_total laws x y Hx Hy); congruence.
Qed.

Lemma insert_sorted_sorted (x : F) (l : list F) :
  ordinary x -> Forall ordinary l ->
  StronglySorted le_true l -> StronglySorted le_true (insert_sorted x l).
Proof.
  intros Hx Hl Hs.
  induction Hs as [|y l Hs IH Hy]; simpl.
  - repeat constructor.
  - apply Forall_cons_iff in Hl; destruct Hl as [Hoy Hl].
    destruct (fleb x y) eqn:Hxy.
    + constructor; [constructor; assumption|].
      constructor; [exact Hxy|].
      eapply Forall_impl; [|exact Hy].
      intros z Hz; exact (ord_trans laws _ _ _ Hxy Hz).
    + constructor; [exact (IH Hl)|].
      apply Forall_forall; intros z Hz.
      apply (Permutation_in _ (insert_sorted_perm x l)) in Hz.
      destruct Hz as [<-|Hz].
      * exact (fleb_false_flip Hx Hoy Hxy).
      * rewrite Forall_forall in Hy; auto.
Qed.

Lemma sort_ascending_sorted (l : list F) :
  Forall ordinary l -> StronglySorted le_true (sort_ascending l).
Proof.
  induction 1 as [|x l Hx Hl IH]; simpl; [constructor|].
  apply insert_sorted_sorted; [exact Hx| |exact IH].
  apply (Forall_perm (Permutation_sym (sort_ascending_perm l)) Hl).
Qed.

(** A list of ordinary values has one ascending arrangement. *)
Lemma sorted_perm_unique (l1 l2 : list F) :
  Forall ordinary l1 ->
  StronglySorted le_true l1 -> StronglySorted le_true l2 ->
  Permutation l1 l2 -> l1 = l2.
Proof.
  intros Ho H1; revert l2 Ho;
    induction H1 as [|a l1 Hl1 IH Ha]; intros l2 Ho H2 Hp.
  - apply Permutation_nil in Hp; auto.
  - destruct H2 as [|b l2 Hl2 Hb].
    + symmetry in Hp; apply Permutation_nil in Hp; discriminate.
    + apply Forall_cons_iff in Ho; destruct Ho as [Hoa Ho].
      assert (Hbin : In b (a :: l1))
        by (apply (Permutation_in _ (Permutation_sym Hp)); left; reflexivity).
      assert (Hob : ordinary b).
      { destruct Hbin as [<-|Hbin]; [exact Hoa|].
        rewrite Forall_forall in Ho; auto. }
      assert (E : a = b).
      { assert (Hain : In a (b :: l2))
          by (apply (Permutation_in _ Hp); left; reflexivity).
        destruct Hain as [->|Hain]; [reflexivity|].
        destruct Hbin as [->|Hbin]; [reflexivity|].
        rewrite Forall_forall in Ha, Hb.
        apply (ord_antisym laws); [exact Hoa | exact Hob | apply Ha | apply Hb];
          assumption. }
      subst b. f_equal. apply IH; [exact Ho | exact Hl2|].
      eapply Permutation_cons_inv; exact Hp.
Qed.

(** Sorting a list that holds [x] and, besides, only elements above [x]. *)
Lemma sort_ascending_least (x : F) (rest l : list F) :
  Forall ordinary l ->
  Permutation l (x :: rest) ->
  Forall (le_true x) rest ->
  sort_ascending l = x :: sort_ascending rest.
Proof.
  intros Ho Hp Hx.
  assert (Hrest : Forall ordinary rest).
  { apply (Forall_perm Hp) in Ho. apply Forall_cons_iff in Ho; tauto. }
  apply sorted_perm_unique.
  - apply (Forall_perm (Permutation_sym (sort_ascending_perm l)) Ho).
  - apply sort_ascending_sorted; exact Ho.
  - constructor; [apply sort_ascending_sorted; exact Hrest|].
    apply Forall_forall; intros z Hz.
    apply (Permutation_in _ (sort_ascending_perm rest)) in Hz.
    rewrite Forall_forall in Hx; auto.
  - rewrite sort_ascending_perm, Hp.
    constructor. symmetry; apply sort_ascending_perm.
Qed.

Lemma less_of_either (a b : F) : less_of a b = a \/ less_of a b = b.
Proof. unfold less_of; destruct (fltb b a); auto. Qed.

Lemma less_of_below (a b : F) :
  ordinary a -> ordinary b ->
  fleb (less_of a b) a = true /\ fleb (less_of a b) b = true.
Proof.
  intros Ha Hb. unfold less_of. rewrite (ord_lt laws b a Hb Ha).
  destruct (fleb a b) eqn:Hab; simpl.
  - split; [apply fleb_refl; exact Ha | exact Hab].
  - split; [apply fleb_false_flip; assumption | apply fleb_refl; exact Hb].
Qed.

Lemma fold_less_in (rest : list F) (x : F) :
  In (fold_left less_of rest x) (x :: rest).
Proof.
  revert x; induction rest as [|y rest IH]; intros x; [left; reflexivity|].
  cbn [fold_left].
  destruct (IH (less_of x y)) as [Hhd|Htl].
  - destruct (less_of_either x y) as [E|E]; rewrite E in Hhd |- *.
    + left; exact Hhd.
    + right; left; exact Hhd.
  - right; right; exact Htl.
Qed.

Lemma fold_less_le (rest : list F) (x y : F) :
  Forall ordinary (x :: rest) ->
  In y (x :: rest) -> fleb (fold_left less_of rest x) y = true.
Proof.
  revert x y; induction rest as [|z rest IH]; intros x y Ho Hy.
  - apply Forall_inv in Ho. destruct Hy as [<-|[]]; apply fleb_refl; exact Ho.
  - cbn [fold_left].
    pose proof (Forall_inv Ho) as Hox.
    pose proof (Forall_inv (Forall_inv_tail Ho)) as Hoz.
    pose proof (Forall_inv_tail (Forall_inv_tail Ho)) as Horest.
    destruct (less_of_below Hox Hoz) as [Hx Hz].
    assert (Ho' : Forall ordinary (less_of x z :: rest)).
    { constructor; [|exact Horest].
      destruct (less_of_either x z) as [->| ->]; assumption. }
    destruct Hy as [<-|[<-|Hy]].
    + eapply (ord_trans laws); [apply (IH _ _ Ho'); left; reflexivity | exact Hx].
    + eapply (ord_trans laws); [apply (IH _ _ Ho'); left; reflexivity | exact Hz].
    + apply (IH _ _ Ho'); right; exact Hy.
Qed.

(** The least element found by scanning is the head of the sorted list. *)
Lemma sort_ascending_head (x : F) (rest : list F) :
  Forall ordinary (x :: rest) ->
  exists tl, sort_ascending (x :: rest) = fold_left less_of rest x :: tl.
Proof.
  intros Ho.
  pose proof (sort_ascending_perm (x :: rest)) as Hp.
  pose proof (sort_ascending_sorted Ho) as Hs.
  assert (Hall : forall y, In y (x :: rest) -> ordinary y)
    by (apply Forall_forall; exact Ho).
  destruct (sort_ascending (x :: rest)) as [|h tl].
  - apply Permutation_nil in Hp; discriminate.
  - exists tl; f_equal.
    assert (Hh : In h (x :: rest))
      by (apply (Permutation_in _ Hp); left; reflexivity).
    apply (ord_antisym laws).
    + apply Hall; exact Hh.
    + apply Hall, fold_less_in.
    + assert (Hm : In (fold_left less_of rest x) (h :: tl))
        by (apply (Permutation_in _ (Permutation_sym Hp)), fold_less_in).
      destruct Hm as [->|Hm]; [apply fleb_refl, Hall, fold_less_in|].
      apply StronglySorted_inv in Hs; destruct Hs as [_ Hle].
      rewrite Forall_forall in Hle; apply Hle; exact Hm.
    + apply fold_less_le; assumption.
Qed.

Lemma greater_of_either (a b : F) :
  greater_of a b = a \/ greater_of a b = b.
Proof. unfold greater_of; destruct (fltb a b); auto. Qed.

Lemma greater_of_above (a b : F) :
  ordinary a -> ordinary b ->
  fleb a (greater_of a b) = true /\ fleb b (greater_of a b) = true.
Proof.
  intros Ha Hb. unfold greater_of. rewrite (ord_lt laws a b Ha Hb).
  destruct (fleb b a) eqn:Hba; simpl.
  - split; [apply fleb_refl; exact Ha | exact Hba].
  - split; [apply fleb_false_flip; assumption | apply fleb_refl; exact Hb].
Qed.

Lemma fold_greater_in (rest : list F) (x : F) :
  In (fold_left greater_of rest x) (x :: rest).
Proof.
  revert x; induction rest as [|y rest IH]; intros x; [left; reflexivity|].
  cbn [fold_left].
  destruct (IH (greater_of x y)) as [Hhd|Htl].
  - destruct (greater_of_either x y) as [E|E]; rewrite E in Hhd |- *.
    + left; exact Hhd.
    + right; left; exact Hhd.
  - right; right; exact Htl.
Qed.

Lemma fold_greater_ge (rest : list F) (x y : F) :
  Forall ordinary (x :: rest) ->
  In y (x :: rest) -> fleb y (fold_left greater_of rest x) = true.
Proof.
  revert x y; induction rest as [|z rest IH]; intros x y Ho Hy.
  - apply Forall_inv in Ho. destruct Hy as [<-|[]]; apply fleb_refl; exact Ho.
  - cbn [fold_left].
    pose proof (Forall_inv Ho) as Hox.
    pose proof (Forall_inv (Forall_inv_tail Ho)) as Hoz.
    pose proof (Forall_inv_tail (Forall_inv_tail Ho)) as Horest.
    destruct (greater_of_above Hox Hoz) as [Hx Hz].
    assert (Ho' : Forall ordinary (greater_of x z :: rest)).
    { constructor; [|exact Horest].
      destruct (greater_of_either x z) as [->| ->]; assumption. }
    destruct Hy as [<-|[<-|Hy]].
    + eapply (ord_trans laws); [exact Hx | apply (IH _ _ Ho'); left; reflexivity].
    + eapply (ord_trans laws); [exact Hz | apply (IH _ _ Ho'); left; reflexivity].
    + apply (IH _ _ Ho'); right; exact Hy.
Qed.

Lemma np_maximum_greater_of (a b : F) :
  ordinary a -> ordinary b -> np_maximum a b = greater_of a b.
Proof.
  intros Ha Hb. unfold np_maximum, greater_of, fgeb.
  rewrite (ord_eq laws a Ha), (ord_lt laws a b Ha Hb), orb_false_r.
  destruct (fleb b a); reflexivity.
Qed.

Lemma ndarray_max_maximum_of (x : F) (rest : list F) :
  Forall ordinary (x :: rest) ->
  ndarray_max (x :: rest) = Return (fold_left greater_of rest x)
  /\ maximum_of (x :: rest) = Some (fold_left greater_of rest x).
Proof.
  intros Ho. split; [|reflexivity]. unfold ndarray_max. f_equal.
  revert x Ho; induction rest as [|y rest IH]; intros x Ho; simpl; auto.
  pose proof (Forall_inv Ho) as Hox.
  pose proof (Forall_inv (Forall_inv_tail Ho)) as Hoy.
  rewrite (np_maximum_greater_of Hox Hoy). apply IH.
  constructor; [|exact (Forall_inv_tail (Forall_inv_tail Ho))].
  destruct (greater_of_either x y) as [->| ->]; assumption.
Qed.
End OrderFacts.

(** ** The reference distance against the brute-force computation *)

Lemma other_points_perm {A : Type} (l : list A) (i : nat) (a : A) :
  nth_error l i = Some a ->
  Permutation l (a :: (firstn i l ++ skipn (Datatypes.S i) l)).
Proof.
  revert i; induction l as [|b l IH]; intros [|i] Hi; simpl in *;
    try discriminate.
  - injection Hi as ->; reflexivity.
  - rewrite (IH i Hi) at 1. apply perm_swap.
Qed.

Lemma other_points_index {A : Type} (l : list A) (i : nat) (a : A) :
  In a (firstn i l ++ skipn (Datatypes.S i) l) ->
  exists j, j <> i /\ nth_error l j = Some a.
Proof.
  revert i; induction l as [|b l IH]; intros [|i] Ha; simpl in *;
    try contradiction.
  - apply In_nth_error in Ha; destruct Ha as [j Hj].
    exists (Datatypes.S j); split; [discriminate | exact Hj].
  - destruct Ha as [->|Ha].
    + exists 0%nat; split; [discriminate | reflexivity].
    + destruct (IH i Ha) as [j [Hne Hj]].
      exists (Datatypes.S j); split; [congruence | exact Hj].
Qed.

Lemma concat_map_indexed {A B : Type} (f : A -> list B) (g : nat -> list B)
    (l : list A) (start : nat) :
  (forall i a, nth_error l i = Some a -> f a = g (start + i)%nat) ->
  concat (map f l) = flat_map g (seq start (length l)).
Proof.
  revert start; induction l as [|a l IH]; intros start Hfg; simpl; auto.
  rewrite (Hfg 0%nat a eq_refl), Nat.add_0_r. f_equal.
  apply IH. intros i b Hi.
  rewrite (Hfg (Datatypes.S i) b Hi). f_equal; lia.
Qed.

Lemma filter_all {A : Type} (f : A -> bool) (l : list A) :
  Forall (fun a => f a = true) l -> filter f l = l.
Proof.
  induction 1 as [|a l Ha _ IH]; simpl; [reflexivity|].
  rewrite Ha, IH; reflexivity.
Qed.

Section ReferenceDistance.
Context {F : Type} {S : Scalar F}.
Variable ordinary : F -> Prop.
Hypothesis laws : OrdinaryLaws ordinary.
Variable haversine : coord F -> coord F -> F.

(** No two points at different indices coincide. *)
Definition pairwise_apart (coords : list (coord F)) : Prop :=
  forall i j p q, i <> j ->
    nth_error coords i = Some p -> nth_error coords j = Some q ->
    fgtb (haversine p q) (of_int 0) = true.

(** No point is at a positive distance from itself. *)
Definition self_distance_zero (coords : list (coord F)) : Prop :=
  forall p, In p coords -> fgtb (haversine p p) (of_int 0) = false.

(** Every distance between two points of the set is an ordinary value. *)
Definition ordinary_distances (coords : list (coord F)) : Prop :=
  forall p q, In p coords -> In q coords -> ordinary (haversine p q).

Lemma positive_above_nonpositive (a b : F) :
  ordinary a -> ordinary b ->
  fgtb a (of_int 0) = false -> fgtb b (of_int 0) = true -> fleb a b = true.
Proof.
  intros Hoa Hob. unfold fgtb.
  rewrite (ord_lt laws _ _ (ord_zero laws) Hoa),
          (ord_lt laws _ _ (ord_zero laws) Hob),
          negb_false_iff, negb_true_iff.
  intros Ha Hb. eapply (ord_trans laws); [exact Ha|].
  apply (fleb_false_flip laws _ _ Hob (ord_zero laws) Hb).
Qed.

Lemma row_ordinary (coords : list (coord F)) (p : coord F) (l : list (coord F)) :
  ordinary_distances coords -> In p coords -> incl l coords ->
  Forall ordinary (map (haversine p) l).
Proof.
  intros Hord Hp Hl. apply Forall_forall; intros d Hd.
  apply in_map_iff in Hd; destruct Hd as [q [<- Hq]]. apply Hord; auto.
Qed.

Lemma other_points_incl (coords : list (coord F)) (i : nat) :
  incl (other_points coords i) coords.
Proof.
  intros q Hq. apply other_points_index in Hq; destruct Hq as [j [_ Hj]].
  eapply nth_error_In; exact Hj.
Qed.

(** The row of point [i]: its positive entries are the one distance to its
    nearest other point, which is also its least positive distance. *)
Lemma row_of_point (coords : list (coord F)) (i : nat) (p : coord F) :
  ordinary_distances coords ->
  pairwise_apart coords ->
  self_distance_zero coords ->
  (2 <= length coords)%nat ->
  nth_error coords i = Some p ->
  exists m,
    filter (fun d => fgtb d (of_int 0)) (kneighbors_row haversine coords 2 p)
      = [m]
    /\ min_positive_distance haversine coords i = Some m.
Proof.
  intros Hord Hapart Hself Hlen Hi.
  pose proof (other_points_perm coords i Hi) as Hperm.
  fold (other_points coords i) in Hperm.
  assert (Hp : In p coords) by (eapply nth_error_In; exact Hi).
  pose proof (@row_ordinary coords p _ Hord Hp (@other_points_incl coords i))
    as Hoo.
  pose proof (@row_ordinary coords p _ Hord Hp (incl_refl coords)) as Hrow.
  set (others := map (haversine p) (other_points coords i)) in *.
  assert (Hpos : Forall (fun d => fgtb d (of_int 0) = true) others).
  { apply Forall_forall; intros d Hd. unfold others in Hd.
    apply in_map_iff in Hd; destruct Hd as [q [<- Hq]].
    apply other_points_index in Hq; destruct Hq as [j [Hne Hj]].
    apply (Hapart i j p q); auto. }
  assert (Hp0 : fgtb (haversine p p) (of_int 0) = false)
    by (apply Hself; exact Hp).
  destruct others as [|x rest] eqn:Eothers.
  { exfalso. apply Permutation_length in Hperm; simpl in Hperm.
    assert (Hl : length others = 0%nat) by (rewrite Eothers; reflexivity).
    unfold others in Hl; rewrite length_map in Hl. lia. }
  destruct (sort_ascending_head laws Hoo) as [tl Hhead].
  exists (fold_left less_of rest x). split.
  - unfold kneighbors_row.
    rewrite (@sort_ascending_least F S ordinary laws
               (haversine p p) (x :: rest)).
    + rewrite Hhead; cbn [firstn filter].
      rewrite Hp0.
      assert (Hm : fgtb (fold_left less_of rest x) (of_int 0) = true).
      { rewrite Forall_forall in Hpos; apply Hpos, fold_less_in. }
      rewrite Hm; reflexivity.
    + exact Hrow.
    + rewrite <- Eothers. unfold others.
      change (haversine p p :: map (haversine p) (other_points coords i))
        with (map (haversine p) (p :: other_points coords i)).
      apply Permutation_map; exact Hperm.
    + apply Forall_forall; intros d Hd.
      apply positive_above_nonpositive.
      * apply Hord; exact Hp.
      * rewrite Forall_forall in Hoo; apply Hoo; exact Hd.
      * exact Hp0.
      * rewrite Forall_forall in Hpos; apply Hpos; exact Hd.
  - unfold min_positive_distance; rewrite Hi.
    fold others; rewrite Eothers.
    rewrite filter_all by exact Hpos. reflexivity.
Qed.

(** The positive entries of the whole distance matrix are the least
    positive distances of the points, in the order of the points. *)
Lemma positive_entries_min_distances (coords : list (coord F)) :
  ordinary_distances coords ->
  pairwise_apart coords ->
  self_distance_zero coords ->
  (2 <= length coords)%nat ->
  positive_entries (map (kneighbors_row haversine coords 2) coords) =
  flat_map
    (fun i => match min_positive_distance haversine coords i with
              | Some d => [d]
              | None => []
              end)
    (seq 0 (length coords)).
Proof.
  intros Hord Hapart Hself Hlen. unfold positive_entries.
  rewrite <- concat_filter_map, map_map.
  apply concat_map_indexed. intros i p Hi; simpl.
  destruct (row_of_point i Hord Hapart Hself Hlen Hi) as [m [Hrow Hmin]].
  rewrite Hrow, Hmin; reflexivity.
Qed.

(** Each positive entry is a distance of the set. *)
Lemma positive_entries_ordinary (coords : list (coord F)) :
  ordinary_distances coords ->
  Forall ordinary
    (positive_entries (map (kneighbors_row haversine coords 2) coords)).
Proof.
  intros Hord. apply Forall_forall; intros d Hd.
  unfold positive_entries in Hd. apply filter_In in Hd.
  destruct Hd as [Hd _].
  apply in_concat in Hd; destruct Hd as [row [Hrow Hd]].
  apply in_map_iff in Hrow; destruct Hrow as [q [<- Hq]].
  apply kneighbors_row_in in Hd; destruct Hd as [p [Hp ->]].
  apply Hord; assumption.
Qed.

(** C1, as the code has it. For a coordinate set of at least two points
    with finite coordinates, no two of which coincide and whose distances
    are ordinary values (on doubles: neither NaN nor the negative zero),
    and any valid mask, [get_grid_reference_distance] returns the maximum
    over all points of the point's least positive distance to another
    point: the value of the brute-force computation. *)
Theorem reference_distance_brute_force (coords : list (coord F))
    (mask : option (Tensor bool)) :
  valid_mask (length coords) mask ->
  forallb coord_finite coords = true ->
  (2 <= length coords)%nat ->
  ordinary_distances coords ->
  pairwise_apart coords ->
  self_distance_zero coords ->
  exists v,
    get_grid_reference_distance haversine coords mask = Return v
    /\ brute_force_reference_distance haversine coords = Some v.
Proof.
  intros Hv Hfin Hlen Hord Hapart Hself.
  rewrite get_grid_reference_distance_run by assumption.
  pose proof (positive_entries_ordinary Hord) as Hall.
  rewrite positive_entries_min_distances in * by assumption.
  unfold brute_force_reference_distance.
  destruct (flat_map _ _) as [|x rest] eqn:E.
  - exfalso.
    destruct coords as [|p0 coords']; [simpl in Hlen; lia|].
    destruct (@row_of_point (p0 :: coords') 0 p0 Hord Hapart Hself Hlen
                eq_refl) as [m [_ Hmin]].
    assert (Hin : In m []); [|contradiction].
    rewrite <- E. apply in_flat_map. exists 0%nat; split.
    + simpl; left; reflexivity.
    + rewrite Hmin; left; reflexivity.
  - exists (fold_left greater_of rest x).
    apply (ndarray_max_maximum_of laws Hall).
Qed.

(** *** Coordinate sets with repeated points *)

(** The distance from point [i] to its nearest other point, zero when the
    point is entered twice. *)
Definition nearest_other_distance (coords : list (coord F)) (i : nat)
    : option F :=
  match nth_error coords i with
  | None => None
  | Some p => minimum_of (map (haversine p) (other_points coords i))
  end.

(** What a point contributes to [dists[dists > 0]]. *)
Definition row_contribution (coords : list (coord F)) (i : nat) : list F :=
  match nearest_other_distance coords i with
  | Some m => if fgtb m (of_int 0) then [m] else []
  | None => []
  end.

(** Distances are never negative and a point is at distance 0 from itself. *)
Definition distance_like (coords : list (coord F)) : Prop :=
  (forall p q, In p coords -> In q coords ->
               fleb (of_int 0) (haversine p q) = true)
  /\ (forall p, In p coords -> haversine p p = of_int 0).

Lemma row_of_repeated_point (coords : list (coord F)) (i : nat)
    (p : coord F) :
  ordinary_distances coords ->
  distance_like coords ->
  (2 <= length coords)%nat ->
  nth_error coords i = Some p ->
  filter (fun d => fgtb d (of_int 0)) (kneighbors_row haversine coords 2 p)
  = row_contribution coords i.
Proof.
  intros Hord [Hnonneg Hself] Hlen Hi.
  pose proof (other_points_perm coords i Hi) as Hperm.
  fold (other_points coords i) in Hperm.
  assert (Hp : In p coords) by (eapply nth_error_In; exact Hi).
  pose proof (@row_ordinary coords p _ Hord Hp (@other_points_incl coords i))
    as Hoo.
  pose proof (@row_ordinary coords p _ Hord Hp (incl_refl coords)) as Hrow.
  unfold row_contribution, nearest_other_distance; rewrite Hi.
  set (others := map (haversine p) (other_points coords i)) in *.
  assert (Hge : Forall (le_true (haversine p p)) others).
  { apply Forall_forall; intros d Hd. unfold others in Hd.
    apply in_map_iff in Hd; destruct Hd as [q [<- Hq]].
    rewrite (Hself p Hp). apply Hnonneg; [exact Hp|].
    apply (@other_points_incl coords i); exact Hq. }
  assert (H00 : fgtb (haversine p p) (of_int 0) = false).
  { rewrite (Hself p Hp). unfold fgtb.
    rewrite (ord_lt laws _ _ (ord_zero laws) (ord_zero laws)),
            (fleb_refl laws _ (ord_zero laws)); reflexivity. }
  destruct others as [|x rest] eqn:Eothers.
  { exfalso. apply Permutation_length in Hperm; simpl in Hperm.
    assert (Hl : length others = 0%nat) by (rewrite Eothers; reflexivity).
    unfold others in Hl; rewrite length_map in Hl. lia. }
  destruct (sort_ascending_head laws Hoo) as [tl Hhead].
  unfold kneighbors_row.
  rewrite (@sort_ascending_least F S ordinary laws
             (haversine p p) (x :: rest)).
  - rewrite Hhead; cbn [firstn filter minimum_of]. rewrite H00.
    destruct (fgtb (fold_left less_of rest x) (of_int 0)); reflexivity.
  - exact Hrow.
  - rewrite <- Eothers. unfold others.
    change (haversine p p :: map (haversine p) (other_points coords i))
      with (map (haversine p) (p :: other_points coords i)).
    apply Permutation_map; exact Hperm.
  - exact Hge.
Qed.

(** On any coordinate set of two or more points whose distances are
    ordinary values, the result is the largest nearest-other-point distance
    among the points that coincide with no other point; a point entered
    more than once contributes nothing. *)
Theorem reference_distance_repeated_points (coords : list (coord F))
    (mask : option (Tensor bool)) :
  valid_mask (length coords) mask ->
  forallb coord_finite coords = true ->
  (2 <= length coords)%nat ->
  ordinary_distances coords ->
  distance_like coords ->
  get_grid_reference_distance haversine coords mask =
  ndarray_max (flat_map (row_contribution coords) (seq 0 (length coords))).
Proof.
  intros Hv Hfin Hlen Hord Hd.
  rewrite get_grid_reference_distance_run by assumption.
  f_equal. unfold positive_entries.
  rewrite <- concat_filter_map, map_map.
  apply concat_map_indexed. intros i p Hi; simpl.
  apply row_of_repeated_point; assumption.
Qed.
End ReferenceDistance.

(** ** Real numbers as a scalar, and the haversine formula *)

(** The exact counterpart of the doubles: scalars are real numbers and the
    metric is the formula scikit-learn documents for ["haversine"],
    [2 * arcsin (sqrt (sin^2 (dlat / 2) + cos lat1 * cos lat2 * sin^2 (dlon / 2)))],
    with the latitude first. *)
Module RealHaversine.
Import Reals Lra.
Local Open Scope R_scope.

Definition Rltb (x y : R) : bool := if Rlt_dec x y then true else false.
Definition Rleb (x y : R) : bool := if Rle_dec x y then true else false.
Definition Reqb (x y : R) : bool := if Req_dec_T x y then true else false.

#[global] Instance R_Scalar : Scalar R := {|
  fadd := Rplus;
  fmul := Rmult;
  of_int := IZR;
  fltb := Rltb;
  fleb := Rleb;
  feqb := Reqb;
  is_finite := fun _ => true
|}.

Definition haversine (p q : coord R) : R :=
  2 * asin (sqrt (Rsqr (sin ((fst q - fst p) / 2))
                  + cos (fst p) * cos (fst q)
                    * Rsqr (sin ((snd q - snd p) / 2)))).

Lemma Rltb_lt (x y : R) : Rltb x y = true <-> x < y.
Proof. unfold Rltb; destruct (Rlt_dec x y); split; auto; discriminate. Qed.

Lemma Rleb_le (x y : R) : Rleb x y = true <-> x <= y.
Proof. unfold Rleb; destruct (Rle_dec x y); split; auto; discriminate. Qed.

Lemma Reqb_eq (x y : R) : Reqb x y = true <-> x = y.
Proof. unfold Reqb; destruct (Req_dec_T x y); split; auto; discriminate. Qed.

Lemma Rltb_true (x y : R) : x < y -> Rltb x y = true.
Proof. apply Rltb_lt. Qed.

Lemma Rltb_false (x y : R) : y <= x -> Rltb x y = false.
Proof.
  intros H; apply not_true_is_false; rewrite Rltb_lt; lra.
Qed.

Lemma Rleb_true (x y : R) : x <= y -> Rleb x y = true.
Proof. apply Rleb_le. Qed.

Lemma Rleb_false (x y : R) : y < x -> Rleb x y = false.
Proof.
  intros H; apply not_true_is_false; rewrite Rleb_le; lra.
Qed.

#[global] Instance R_ScalarLaws : ScalarLaws R.
Proof.
  split; intros m; unfold fgtb, fgeb; cbn;
    rewrite ?Rltb_lt, ?Rleb_le, ?Reqb_eq; intros Hm;
    try lra; try (apply Rltb_false; lra); try (apply Rleb_false; lra).
  apply not_true_is_false; rewrite Reqb_eq; lra.
Qed.

#[global] Instance R_OrderLaws : OrderLaws R.
Proof.
  split; cbn.
  - intros x y; rewrite !Rleb_le; lra.
  - intros x y z; rewrite !Rleb_le; lra.
  - intros x y; rewrite !Rleb_le; lra.
  - intros x y. destruct (Rle_dec y x) as [Hle|Hgt].
    + rewrite Rltb_false, Rleb_true by lra; reflexivity.
    + rewrite Rltb_true, Rleb_false by lra; reflexivity.
  - intros x; apply Reqb_eq; reflexivity.
Qed.

(** Along the equator the distance between two points is the difference of
    their longitudes. *)
Lemma haversine_equator (a b : R) :
  Rabs (b - a) <= 2 ->
  haversine (0, a) (0, b) = Rabs (b - a).
Proof.
  intros Hab. unfold haversine; cbn [fst snd].
  replace ((0 - 0) / 2) with 0 by lra.
  rewrite sin_0, Rsqr_0, cos_0, Rplus_0_l, !Rmult_1_l, sqrt_Rsqr_abs.
  pose proof PI2_1 as Hpi.
  destruct (Rle_lt_dec 0 (b - a)) as [Hpos|Hneg].
  - rewrite (Rabs_pos_eq (b - a)) in * by exact Hpos.
    rewrite (Rabs_pos_eq (sin _)) by (apply sin_ge_0; lra).
    rewrite asin_sin by lra. lra.
  - rewrite (Rabs_left (b - a)) in * by exact Hneg.
    replace ((b - a) / 2) with (- (- (b - a) / 2)) by lra.
    rewrite sin_neg, Rabs_Ropp.
    rewrite (Rabs_pos_eq (sin _)) by (apply sin_ge_0; lra).
    rewrite asin_sin by lra. lra.
Qed.

Lemma Reqb_true (x y : R) : x = y -> Reqb x y = true.
Proof. apply Reqb_eq. Qed.

Arguments haversine : simpl never.
Arguments Rleb : simpl never.
Arguments Rltb : simpl never.
Arguments Reqb : simpl never.

(** Evaluation on points of the equator: distances become differences of
    longitudes, and each comparison of two numbers is settled by [lra]. *)
Ltac solve_abs := unfold Rabs; repeat destruct (Rcase_abs _); lra.

Ltac equator_distances :=
  repeat match goal with
         | |- context [haversine (0, ?a) (0, ?b)] =>
             rewrite (haversine_equator a b) by solve_abs
         end;
  repeat match goal with
         | |- context [Rabs ?e] =>
             first [ rewrite (Rabs_pos_eq e) by lra
                   | rewrite (Rabs_left e) by lra ]
         end.

Ltac settle_step :=
  match goal with
  | |- context [Rleb ?x ?y] =>
      first [ rewrite (@Rleb_true x y) by lra
            | rewrite (@Rleb_false x y) by lra ]
  | |- context [Rltb ?x ?y] =>
      first [ rewrite (@Rltb_true x y) by lra
            | rewrite (@Rltb_false x y) by lra ]
  | |- context [Reqb ?x ?y] => rewrite (@Reqb_true x y) by lra
  end.

Ltac settle_comparisons :=
  repeat (cbn; unfold np_maximum, less_of, greater_of, fgeb, fgtb; cbn;
          settle_step);
  cbn.

(** Four points on the equator, the first one entered twice: longitudes
    0, 0, 1 and 3/2 radians. *)
Definition duplicated_grid : list (coord R) :=
  [(0, 0); (0, 0); (0, 1); (0, 3 / 2)].

(** Two entries for one point. *)
Definition coincident_pair : list (coord R) := [(0, 0); (0, 0)].

(** Three different points on the equator. *)
Definition spaced_grid : list (coord R) := [(0, 0); (0, 1); (0, 3 / 2)].

(** The code on [duplicated_grid]: the rows of the doubled point hold two
    zeros and drop out, the other two rows contribute 1/2 each. *)
Lemma duplicated_grid_distance :
  get_grid_reference_distance haversine duplicated_grid None
  = Return (1 / 2).
Proof.
  unfold duplicated_grid. cbn. equator_distances. settle_comparisons.
  f_equal; lra.
Qed.

(** The brute-force value on [duplicated_grid]: the doubled point is at
    least positive distance 1 from another point. *)
Lemma duplicated_grid_brute_force :
  brute_force_reference_distance haversine duplicated_grid = Some 1.
Proof.
  unfold duplicated_grid, brute_force_reference_distance,
    min_positive_distance, other_points.
  cbn. equator_distances. settle_comparisons.
  f_equal; lra.
Qed.

Lemma coincident_pair_coincident : coincident haversine coincident_pair.
Proof.
  intros p q [<-|[<-|[]]] [<-|[<-|[]]]; cbn;
    equator_distances; apply Reqb_true; lra.
Qed.

Lemma spaced_grid_apart : pairwise_apart haversine spaced_grid.
Proof.
  intros i j p q Hne Hi Hj.
  do 3 (destruct i as [|i]; [do 3 (destruct j as [|j];
     [try congruence; injection Hi as <-; injection Hj as <-; cbn;
      equator_distances; apply Rltb_true; lra|]);
     destruct j; discriminate|]).
  destruct i; discriminate.
Qed.

Lemma duplicated_grid_distance_like : distance_like haversine duplicated_grid.
Proof.
  split.
  - intros p q [<-|[<-|[<-|[<-|[]]]]] [<-|[<-|[<-|[<-|[]]]]]; cbn;
      equator_distances; apply Rleb_true; lra.
  - intros p [<-|[<-|[<-|[<-|[]]]]]; cbn; equator_distances; lra.
Qed.

(** The scenario of the specification: three points 0.01 rad apart on the
    equator have reference distance 0.01, not zero. *)
Example reference_distance_scenario :
  get_grid_reference_distance haversine
    [(0, 0); (0, 1 / 100); (0, 2 / 100)] None
  = Return (1 / 100).
Proof.
  cbn. equator_distances. settle_comparisons. f_equal; lra.
Qed.

Lemma spaced_grid_self : self_distance_zero haversine spaced_grid.
Proof.
  intros p [<-|[<-|[<-|[]]]]; cbn; equator_distances;
    apply Rltb_false; lra.
Qed.
End RealHaversine.

(** ** The theorems on points of the equator *)

Module EquatorRuns.
Import Reals Lra RealHaversine.
Local Open Scope R_scope.

(** A mask of the right shape for the two points of [coincident_pair]. *)
Definition pair_mask : Tensor bool :=
  {| shape := [2%nat; 1%nat]; data := [true; false] |}.

(** C1 fails as stated on [duplicated_grid]: the set holds two points at a
    positive distance, the code returns 1/2, the brute-force computation
    returns 1. *)
Lemma reference_distance_duplicated_point :
  (exists p q, In p duplicated_grid /\ In q duplicated_grid
               /\ fgtb (haversine p q) (of_int 0) = true)
  /\ valid_mask (length duplicated_grid) None
  /\ get_grid_reference_distance haversine duplicated_grid None
     = Return (1 / 2)
  /\ brute_force_reference_distance haversine duplicated_grid = Some 1
  /\ 1 / 2 <> 1.
Proof.
  split; [|split; [exact I|split; [|split]]].
  - exists (0, 0), (0, 1). split; [left; reflexivity|].
    split; [right; right; left; reflexivity|].
    cbn. equator_distances. apply Rltb_true; lra.
  - exact duplicated_grid_distance.
  - exact duplicated_grid_brute_force.
  - lra.
Qed.

(** C9 fails as stated on [coincident_pair]: all distances are zero and
    the call ends in NumPy's [ValueError], neither a value nor an error of
    the module's own. *)
Lemma reference_distance_coincident_pair :
  coincident haversine coincident_pair
  /\ get_grid_reference_distance haversine coincident_pair None
     = Raise (ValueError
         "zero-size array to reduction operation maximum which has no identity")
  /\ propagates_library_error
       (get_grid_reference_distance haversine coincident_pair None).
Proof.
  assert (E : get_grid_reference_distance haversine coincident_pair None
              = Raise (ValueError
                  "zero-size array to reduction operation maximum which has no identity")).
  { unfold coincident_pair. cbn. equator_distances. settle_comparisons.
    reflexivity. }
  split; [exact coincident_pair_coincident|split; [exact E|]].
  rewrite E; exact I.
Qed.

Lemma reference_distance_coincident_masked :
  coincident haversine coincident_pair
  /\ propagates_library_error
       (get_grid_reference_distance haversine coincident_pair
          (Some pair_mask))
  /\ get_grid_reference_distance haversine coincident_pair (Some pair_mask)
     = Raise (ValueError
         "zero-size array to reduction operation maximum which has no identity").
Proof.
  split; [exact coincident_pair_coincident|].
  destruct (reference_distance_coincident (L := R_ScalarLaws)
              (haversine := haversine) (coords := coincident_pair)
              (Some pair_mask) eq_refl coincident_pair_coincident)
    as [_ [Hlib Hrun]].
  split; [exact Hlib|].
  apply Hrun; [reflexivity | simpl; lia].
Defined.

Lemma reference_distance_positive_duplicated :
  get_grid_reference_distance haversine duplicated_grid None = Return (1 / 2)
  /\ fgtb (1 / 2) (of_int 0) = true.
Proof.
  split; [exact duplicated_grid_distance|].
  exact (reference_distance_positive haversine duplicated_grid None
           duplicated_grid_distance).
Defined.

Lemma mask_content_ignored_pair :
  get_nearest_neighbour coincident_pair None
    = get_nearest_neighbour coincident_pair (Some pair_mask)
  /\ (forall fitted,
        get_nearest_neighbour coincident_pair None = Return fitted ->
        fit_X fitted = Some coincident_pair)
  /\ get_grid_reference_distance haversine coincident_pair None
     = get_grid_reference_distance haversine coincident_pair (Some pair_mask).
Proof.
  exact (mask_content_ignored haversine coincident_pair
           None (Some pair_mask) I eq_refl).
Defined.

(** Five points and a mask of three entries: the assertion fails; a mask
    of shape (5, 1) passes. *)
Lemma get_nearest_neighbour_shape_check_five :
  let coords := [(0, 0); (0, 1); (0, 2); (0, 3); (0, 4)] in
  get_nearest_neighbour coords
    (Some {| shape := [3%nat; 1%nat]; data := [true; true; true] |})
  = Raise (AssertionError mask_message)
  /\ get_nearest_neighbour coords
       (Some {| shape := [5%nat; 1%nat];
                data := [true; true; true; true; true] |})
     = fit unfitted coords.
Proof.
  intros coords.
  destruct (get_nearest_neighbour_shape_check coords) as [Hbad Hgood].
  split.
  - apply Hbad; simpl; discriminate.
  - apply Hgood. right; eexists; split; reflexivity.
Defined.
End EquatorRuns.

(** ** The theorems on doubles *)

Module Float64Runs.
Import Floats Float64.

Lemma add_margin_nine_variants_two_points :
  exists latitudes longitudes,
    add_margin [0.5; 1.5]%float [10; 20]%float 0.25%float
      = Return (latitudes, longitudes)
    /\ length latitudes = 18%nat
    /\ length longitudes = 18%nat
    /\ Permutation (combine latitudes longitudes)
         (flat_map (offset_variants 0.25%float)
                   [(0.5, 10); (1.5, 20)]%float).
Proof.
  destruct (add_margin_nine_variants (L := float_ScalarLaws)
              [0.5; 1.5]%float [10; 20]%float 0.25%float eq_refl eq_refl)
    as [latitudes [longitudes [Hrun [Hlat [Hlon [Hperm _]]]]]].
  exists latitudes, longitudes. repeat split; assumption.
Defined.

Lemma add_margin_block_order_two_points :
  exists latitudes longitudes,
    add_margin [0.5; 1.5]%float [10; 20]%float 0.25%float
      = Return (latitudes, longitudes)
    /\ firstn 2 (skipn 10 latitudes) = [0.5; 1.5]%float
    /\ firstn 2 (skipn 10 longitudes) = [10.25; 20.25]%float.
Proof.
  destruct (add_margin_block_order (L := float_ScalarLaws)
              [0.5; 1.5]%float [10; 20]%float 0.25%float eq_refl eq_refl)
    as [latitudes [longitudes [Hrun [_ [_ [Hblocks _]]]]]].
  exists latitudes, longitudes. split; [exact Hrun|].
  destruct (Hblocks 5%nat) as [Hlat Hlon]; [lia|].
  split; [exact Hlat | exact Hlon].
Defined.

Lemma add_margin_zero_identity_negative_zero :
  add_margin [0.5; 1.5]%float [10; 20]%float (-0)%float
  = Return ([0.5; 1.5]%float, [10; 20]%float).
Proof.
  exact (add_margin_zero_identity (L := float_ScalarLaws)
           [0.5; 1.5]%float [10; 20]%float (-0)%float eq_refl).
Defined.

Lemma add_margin_precondition_doubles :
  add_margin [0.5]%float [10]%float (-0.25)%float
    = Raise (AssertionError "Margin must be non-negative")
  /\ exists out, add_margin [0.5]%float [10]%float 0.25%float = Return out.
Proof.
  split.
  - exact (proj1 (add_margin_precondition (L := float_ScalarLaws)
                    [0.5]%float [10]%float (-0.25)%float) eq_refl).
  - exact (proj2 (proj2 (add_margin_precondition (L := float_ScalarLaws)
                           [0.5]%float [10]%float 0.25%float) eq_refl)).
Defined.

(** The example of the specification: [[3, 4]] is row 1 of
    [[[1, 2], [3, 4], [5, 6]]] and [[9, 9]] is no row of it. *)
Lemma get_index_in_outer_join_example :
  get_index_in_outer_join [3; 4]%float [[1; 2]; [3; 4]; [5; 6]]%float
    = Return 1
  /\ get_index_in_outer_join [9; 9]%float [[1; 2]; [3; 4]; [5; 6]]%float
     = Return (-1).
Proof.
  split.
  - apply (proj1 (@get_index_in_outer_join_correct _ _
                    [3; 4]%float [[1; 2]; [3; 4]; [5; 6]]%float
                    ltac:(repeat constructor)) 1%nat).
    split.
    + exists [3; 4]%float. split; reflexivity.
    + intros j row Hj Hrow.
      do 3 (destruct j as [|j];
            [injection Hj as <-; try reflexivity; discriminate Hrow|]).
      destruct j; discriminate.
  - apply (proj2 (@get_index_in_outer_join_correct _ _
                    [9; 9]%float [[1; 2]; [3; 4]; [5; 6]]%float
                    ltac:(repeat constructor))).
    intros row [<-|[<-|[<-|[]]]]; reflexivity.
Defined.

Lemma get_index_in_outer_join_ambiguous_example :
  get_index_in_outer_join [3; 4]%float [[3; 4]; [1; 2]; [3; 4]]%float
  = Raise (ValueError
             "only one element tensors can be converted to Python scalars").
Proof.
  apply (@get_index_in_outer_join_ambiguous _ _
           [3; 4]%float [[3; 4]; [1; 2]; [3; 4]]%float
           0%nat 2%nat [3; 4]%float [3; 4]%float);
    try reflexivity; [repeat constructor | discriminate].
Defined.
End Float64Runs.

(** * Further properties of the four functions *)

(** ** get_index_in_outer_join: what an outcome tells *)

Section OuterJoinOutcomes.
Context {F : Type} {S : Scalar F}.

Lemma where_true_index (mask : list bool) (start k : nat) :
  In k (where_true start mask) ->
  exists j, k = (start + j)%nat /\ nth_error mask j = Some true.
Proof.
  revert start; induction mask as [|b mask IH]; intros start Hk;
    [contradiction|].
  simpl in Hk. destruct b.
  - destruct Hk as [<-|Hk].
    + exists 0%nat; split; [lia | reflexivity].
    + destruct (IH _ Hk) as [j [-> Hj]].
      exists (Datatypes.S j); split; [lia | exact Hj].
  - destruct (IH _ Hk) as [j [-> Hj]].
    exists (Datatypes.S j); split; [lia | exact Hj].
Qed.

Lemma where_true_complete (mask : list bool) (start j : nat) :
  nth_error mask j = Some true -> In (start + j)%nat (where_true start mask).
Proof.
  revert start j; induction mask as [|b mask IH]; intros start j Hj.
  - destruct j; discriminate.
  - destruct j as [|j]; simpl in Hj |- *.
    + injection Hj as ->. left; lia.
    + replace (start + Datatypes.S j)%nat with (Datatypes.S start + j)%nat
        by lia.
      destruct b; [right|]; apply IH; exact Hj.
Qed.

(** The row mask of a well-shaped matrix, read back as rows. *)
Lemma row_mask_lookup (vector : list F) (tensor : list (list F)) (j : nat) :
  nth_error (map (fun row => row_matches row vector) tensor) j = Some true
  <-> exists row, nth_error tensor j = Some row
                  /\ row_matches row vector = true.
Proof.
  rewrite nth_error_map.
  destruct (nth_error tensor j) as [row|]; simpl; split.
  - intros [= Hrow]; eauto.
  - intros [row' [[= <-] Hrow]]; congruence.
  - discriminate.
  - intros [row' [[=] _]].
Qed.

(** A returned value is either [-1], and then no row equals the vector, or
    the index of a row that equals the vector, and then of the only one:
    the call never returns the index of a row that differs, an index out of
    range, or one of several matches. *)
Theorem get_index_in_outer_join_sound (vector : list F)
    (tensor : list (list F)) (r : Z) :
  Forall (fun row => length row = length vector) tensor ->
  get_index_in_outer_join vector tensor = Return r ->
  (r = -1 /\ forall row, In row tensor -> row_matches row vector = false)
  \/ (exists i, r = Z.of_nat i /\ (i < length tensor)%nat
                /\ only_match vector tensor i).
Proof.
  intros Hshape. unfold get_index_in_outer_join.
  rewrite all_rows_eq_matches by exact Hshape; cbn [bind].
  set (mask := map (fun row => row_matches row vector) tensor).
  destruct (existsb (fun b => b) mask) eqn:Hany.
  - intros Hr. right.
    destruct (where_true 0 mask) as [|i [|i' rest]] eqn:E;
      try discriminate Hr.
    injection Hr as <-.
    assert (Hi : nth_error mask i = Some true).
    { destruct (@where_true_index mask 0 i) as [j [-> Hj]];
        [rewrite E; left; reflexivity | exact Hj]. }
    exists i. split; [reflexivity|]. split.
    + apply row_mask_lookup in Hi; destruct Hi as [row [Hrow _]].
      apply nth_error_Some; congruence.
    + split; [apply row_mask_lookup; exact Hi|].
      intros j row Hj Hrow.
      assert (Hin : In (0 + j)%nat (where_true 0 mask)).
      { apply where_true_complete, row_mask_lookup; eauto. }
      rewrite E in Hin. destruct Hin as [Hin|[]]. simpl in Hin; congruence.
  - intros [= <-]. left; split; [reflexivity|].
    intros row Hrow. apply not_true_is_false; intros Hm.
    assert (Hex : existsb (fun b => b) mask = true).
    { apply existsb_exists; exists true; split; [|reflexivity].
      unfold mask; apply in_map_iff; exists row; auto. }
    congruence.
Qed.

Lemma combine_partner (row vector : list F) (x : F) :
  length row = length vector -> In x vector ->
  exists y, In (y, x) (combine row vector).
Proof.
  revert vector; induction row as [|a row IH]; intros [|b vector] Hlen Hx;
    simpl in *; try discriminate; try contradiction.
  destruct Hx as [<-|Hx].
  - exists a; left; reflexivity.
  - destruct (IH vector) as [y Hy]; [congruence | exact Hx|].
    exists y; right; exact Hy.
Qed.

(** A vector with an entry that compares equal to nothing (a NaN) is never
    found, whatever the matrix holds. *)
Theorem get_index_in_outer_join_unmatchable (vector : list F)
    (tensor : list (list F)) (x : F) :
  Forall (fun row => length row = length vector) tensor ->
  In x vector ->
  (forall y, feqb y x = false) ->
  get_index_in_outer_join vector tensor = Return (-1).
Proof.
  intros Hshape Hx Hnever. unfold get_index_in_outer_join.
  rewrite all_rows_eq_matches by exact Hshape; cbn [bind].
  assert (Hany : existsb (fun b => b)
                   (map (fun row => row_matches row vector) tensor) = false).
  { apply not_true_is_false; intros Hex.
    apply existsb_exists in Hex; destruct Hex as [b [Hin ->]].
    apply in_map_iff in Hin; destruct Hin as [row [Hrow Hin]].
    rewrite Forall_forall in Hshape.
    destruct (combine_partner row vector x (Hshape row Hin) Hx) as [y Hy].
    unfold row_matches in Hrow. apply andb_true_iff in Hrow.
    destruct Hrow as [_ Hall]. rewrite forallb_forall in Hall.
    specialize (Hall _ Hy); simpl in Hall.
    rewrite Hnever in Hall; discriminate. }
  rewrite Hany; reflexivity.
Qed.

(** A vector whose length is neither the number of columns nor 1 cannot be
    broadcast against the rows: the comparison raises before any search. *)
Theorem get_index_in_outer_join_shape_mismatch (vector : list F)
    (tensor : list (list F)) (n : nat) :
  Forall (fun row => length row = n) tensor ->
  tensor <> [] ->
  n <> length vector -> n <> 1%nat -> length vector <> 1%nat ->
  get_index_in_outer_join vector tensor
  = Raise (RuntimeError broadcast_message).
Proof.
  intros Hshape Hne Hn Hn1 Hv1.
  destruct tensor as [|row rest]; [contradiction|].
  apply Forall_inv in Hshape.
  unfold get_index_in_outer_join; cbn [all_rows_eq].
  assert (E : row_eq row vector = Raise (RuntimeError broadcast_message)).
  { unfold row_eq.
    destruct (Nat.eqb_spec (length row) (length vector)) as [E|_];
      [congruence|].
    destruct vector as [|v [|v' vector]]; simpl in Hv1; try congruence;
      destruct row as [|a [|a' row]]; simpl in Hshape; try congruence;
      reflexivity. }
  rewrite E; reflexivity.
Qed.

Lemma all_rows_eq_scalar (v : F) (tensor : list (list F)) :
  all_rows_eq tensor [v] =
  Return (map (fun row => forallb (fun x => feqb x v) row) tensor).
Proof.
  induction tensor as [|row rest IH]; [reflexivity|].
  cbn [all_rows_eq map]. rewrite IH.
  assert (E : row_eq row [v] = Return (map (fun x => feqb x v) row)).
  { unfold row_eq.
    destruct (Nat.eqb_spec (length row) (length [v])) as [E|_];
      [|destruct row as [|a [|a' row]]; reflexivity].
    destruct row as [|a [|a' row]]; try discriminate E; reflexivity. }
  rewrite E; cbn [bind]. rewrite forallb_id_map; reflexivity.
Qed.

(** A one-element vector is not rejected but broadcast over the columns:
    the call gives the index of the only row all of whose entries equal
    that element, for rows of any length. *)
Theorem get_index_in_outer_join_scalar_query (v : F)
    (tensor : list (list F)) (i : nat) (row : list F) :
  nth_error tensor i = Some row ->
  forallb (fun x => feqb x v) row = true ->
  (forall j row', nth_error tensor j = Some row' ->
                  forallb (fun x => feqb x v) row' = true -> j = i) ->
  get_index_in_outer_join [v] tensor = Return (Z.of_nat i).
Proof.
  intros Hi Hrow Huniq. unfold get_index_in_outer_join.
  rewrite all_rows_eq_scalar; cbn [bind].
  set (mask := map (fun row => forallb (fun x => feqb x v) row) tensor).
  assert (Hmi : nth_error mask i = Some true)
    by (unfold mask; rewrite nth_error_map, Hi; simpl; congruence).
  assert (Hany : existsb (fun b => b) mask = true).
  { apply existsb_exists; exists true; split; [|reflexivity].
    apply (nth_error_In mask i Hmi). }
  rewrite Hany, (@where_true_single mask 0 i); [reflexivity | exact Hmi|].
  intros j Hj. unfold mask in Hj; rewrite nth_error_map in Hj.
  destruct (nth_error tensor j) as [row'|] eqn:Ej; [|discriminate].
  injection Hj as Hj. exact (Huniq j row' Ej Hj).
Qed.
End OuterJoinOutcomes.

(** ** get_grid_reference_distance: failures, and what a result is *)



Lemma other_points_member {A : Type} (l : list A) (i j : nat) (a : A) :
  j <> i -> nth_error l j = Some a ->
  In a (firstn i l ++ skipn (Datatypes.S i) l).
Proof.
  revert i j; induction l as [|b l IH]; intros i j Hne Hj.
  - destruct j; discriminate.
  - destruct i as [|i], j as [|j]; simpl in *.
    + congruence.
    + eapply nth_error_In; exact Hj.
    + injection Hj as ->; left; reflexivity.
    + right. apply (IH i j); [congruence | exact Hj].
Qed.

Section ReferenceDistanceOutcomes.
Context {F : Type} {S : Scalar F}.
Variable haversine : coord F -> coord F -> F.

(** The call, with the three checks of the library written out. *)
Lemma get_grid_reference_distance_steps (coords : list (coord F))
    (mask : option (Tensor bool)) :
  valid_mask (length coords) mask ->
  get_grid_reference_distance haversine coords mask =
  if negb (forallb coord_finite coords) then
    Raise (ValueError "Input contains NaN or infinity.")
  else if (length coords =? 0)%nat then
    Raise (ValueError "Found array with 0 sample(s) while a minimum of 1 is required by NearestNeighbors.")
  else if (length coords <? 2)%nat then
    Raise (ValueError "Expected n_neighbors <= n_samples_fit")
  else
    ndarray_max
      (positive_entries (map (kneighbors_row haversine coords 2) coords)).
Proof.
  intros Hv. unfold get_grid_reference_distance.
  rewrite get_nearest_neighbour_valid by exact Hv.
  unfold fit, kneighbors.
  destruct (forallb coord_finite coords) eqn:Hfin; cbn [negb bind];
    [|reflexivity].
  destruct (length coords =? 0)%nat; cbn [bind fit_X negb]; [reflexivity|].
  destruct (length coords <? 2)%nat; reflexivity.
Qed.

(** With fewer than two points there is no second neighbour to ask for: the
    call fails with the library's [ValueError], on the empty set already
    when the estimator is fitted, on a single point when two neighbours
    are requested. *)
Theorem reference_distance_too_few_points (coords : list (coord F))
    (mask : option (Tensor bool)) :
  valid_mask (length coords) mask ->
  (length coords < 2)%nat ->
  (exists msg,
      get_grid_reference_distance haversine coords mask
        = Raise (ValueError msg))
  /\ (coords = [] ->
      get_grid_reference_distance haversine coords mask
        = Raise (ValueError
            "Found array with 0 sample(s) while a minimum of 1 is required by NearestNeighbors."))
  /\ (forall p, coords = [p] -> coord_finite p = true ->
      get_grid_reference_distance haversine coords mask
        = Raise (ValueError "Expected n_neighbors <= n_samples_fit")).
Proof.
  intros Hv Hlen. split; [|split].
  - apply get_grid_reference_distance_rejected; auto.
  - intros ->. rewrite get_grid_reference_distance_steps by exact Hv.
    reflexivity.
  - intros p -> Hp. rewrite get_grid_reference_distance_steps by exact Hv.
    simpl. rewrite Hp. reflexivity.
Qed.

(** A returned value is a distance between two of the points, it is
    positive, and the input had a valid mask and at least two points, all
    finite: the call never returns on less, and never a number that is no
    distance of the set. *)
Theorem reference_distance_attained (coords : list (coord F))
    (mask : option (Tensor bool)) (v : F) :
  get_grid_reference_distance haversine coords mask = Return v ->
  valid_mask (length coords) mask
  /\ (2 <= length coords)%nat
  /\ forallb coord_finite coords = true
  /\ fgtb v (of_int 0) = true
  /\ exists p q, In p coords /\ In q coords /\ v = haversine p q.
Proof.
  intros Hret.
  assert (Hv : valid_mask (length coords) mask).
  { apply mask_shape_ok_valid.
    destruct (mask_shape_ok (length coords) mask) eqn:E; [reflexivity|].
    unfold get_grid_reference_distance, get_nearest_neighbour, py_assert
      in Hret.
    rewrite E in Hret; discriminate. }
  split; [exact Hv|]. revert Hret.
  rewrite get_grid_reference_distance_steps by exact Hv.
  destruct (forallb coord_finite coords); cbn [negb]; [|discriminate].
  destruct (length coords =? 0)%nat; [discriminate|].
  destruct (Nat.ltb_spec (length coords) 2) as [|Hlen]; [discriminate|].
  unfold ndarray_max.
  destruct (positive_entries _) as [|x rest] eqn:E; [discriminate|].
  intros [= <-].
  pose proof (fold_np_maximum_in rest x) as Hin. rewrite <- E in Hin.
  split; [exact Hlen|]. split; [reflexivity|].
  split; [eapply positive_entries_positive; exact Hin|].
  unfold positive_entries in Hin. apply filter_In in Hin.
  destruct Hin as [Hin _].
  apply in_concat in Hin; destruct Hin as [row [Hrow Hin]].
  apply in_map_iff in Hrow; destruct Hrow as [p [<- Hp]].
  apply kneighbors_row_in in Hin; destruct Hin as [q [Hq Hd]].
  exists p, q; auto.
Qed.
End ReferenceDistanceOutcomes.

(** ** get_grid_reference_distance under a total order *)

Section ReferenceDistanceOrder.
Context {F : Type} {S : Scalar F} {O : OrderLaws F}.
Variable haversine : coord F -> coord F -> F.



End ReferenceDistanceOrder.

Section ReferenceDistanceCovering.
Context {F : Type} {S : Scalar F}.
Variable ordinary : F -> Prop.
Hypothesis laws : OrdinaryLaws ordinary.
Variable haversine : coord F -> coord F -> F.

Lemma minimum_of_least (l : list F) (m : F) :
  Forall ordinary l ->
  minimum_of l = Some m ->
  In m l /\ forall y, In y l -> fleb m y = true.
Proof.
  destruct l as [|x rest]; [discriminate|]. intros Ho [= <-]. split.
  - apply fold_less_in.
  - intros y Hy; apply (fold_less_le laws Ho Hy).
Qed.

(** On a set of two or more finite points no two of which coincide, with
    ordinary distances (on doubles: neither NaN nor the negative zero), the
    returned distance [v] is a covering radius and the least one: every
    point has another point within [v], and some point has no other point
    closer than [v]. *)
Theorem reference_distance_covering (coords : list (coord F))
    (mask : option (Tensor bool)) :
  valid_mask (length coords) mask ->
  forallb coord_finite coords = true ->
  (2 <= length coords)%nat ->
  ordinary_distances ordinary haversine coords ->
  pairwise_apart haversine coords ->
  self_distance_zero haversine coords ->
  exists v,
    get_grid_reference_distance haversine coords mask = Return v
    /\ (forall i p, nth_error coords i = Some p ->
          exists j q, j <> i /\ nth_error coords j = Some q
                      /\ fleb (haversine p q) v = true)
    /\ (exists i p, nth_error coords i = Some p
          /\ forall j q, j <> i -> nth_error coords j = Some q ->
                         fleb v (haversine p q) = true).
Proof.
  intros Hv Hfin Hlen Hord Hapart Hself.
  rewrite get_grid_reference_distance_run by assumption.
  pose proof (positive_entries_ordinary Hord) as Hall.
  rewrite (positive_entries_min_distances laws) in * by assumption.
  set (entry := fun i => match min_positive_distance haversine coords i with
                         | Some d => [d]
                         | None => []
                         end) in *.
  assert (Hmin : forall i p m,
             nth_error coords i = Some p ->
             min_positive_distance haversine coords i = Some m ->
             (exists j q, j <> i /\ nth_error coords j = Some q
                          /\ m = haversine p q)
             /\ (forall j q, j <> i -> nth_error coords j = Some q ->
                             fleb m (haversine p q) = true)).
  { intros i p m Hi Hm. unfold min_positive_distance in Hm.
    rewrite Hi in Hm. rewrite filter_all in Hm.
    - apply minimum_of_least in Hm.
      + destruct Hm as [Hin Hle]. split.
        * apply in_map_iff in Hin; destruct Hin as [q [<- Hq]].
          apply other_points_index in Hq; destruct Hq as [j [Hne Hj]].
          exists j, q; auto.
        * intros j q Hne Hj. apply Hle, in_map.
          apply (other_points_member coords Hne Hj).
      + apply Forall_forall; intros d Hd.
        apply in_map_iff in Hd; destruct Hd as [q [<- Hq]].
        apply Hord; [eapply nth_error_In; exact Hi|].
        apply (@other_points_incl F coords i); exact Hq.
    - apply Forall_forall; intros d Hd.
      apply in_map_iff in Hd; destruct Hd as [q [<- Hq]].
      apply other_points_index in Hq; destruct Hq as [j [Hne Hj]].
      apply (Hapart i j p q); auto. }
  assert (Hentry : forall i p, nth_error coords i = Some p ->
             exists m, min_positive_distance haversine coords i = Some m
                       /\ In m (flat_map entry (seq 0 (length coords)))).
  { intros i p Hi.
    destruct (row_of_point laws i Hord Hapart Hself Hlen Hi)
      as [m [_ Hm]].
    exists m; split; [exact Hm|].
    apply in_flat_map. exists i. split.
    - apply in_seq. split; [lia|]. simpl. apply nth_error_Some; congruence.
    - unfold entry; rewrite Hm; left; reflexivity. }
  destruct (flat_map entry (seq 0 (length coords))) as [|x rest] eqn:E.
  { exfalso. destruct coords as [|p0 coords']; [simpl in Hlen; lia|].
    destruct (Hentry 0%nat p0 eq_refl) as [m [_ []]]. }
  destruct (ndarray_max_maximum_of laws Hall) as [-> _].
  exists (fold_left greater_of rest x). split; [reflexivity|]. split.
  - intros i p Hi.
    destruct (Hentry i p Hi) as [m [Hm Hin]].
    destruct (Hmin i p m Hi Hm) as [[j [q [Hne [Hj ->]]]] _].
    exists j, q. repeat split; auto.
    apply (fold_greater_ge laws Hall Hin).
  - pose proof (fold_greater_in rest x) as Hin. rewrite <- E in Hin.
    apply in_flat_map in Hin; destruct Hin as [i [Hi Hin]].
    apply in_seq in Hi.
    destruct (nth_error coords i) as [p|] eqn:Ei;
      [|apply nth_error_None in Ei; lia].
    exists i, p. split; [exact Ei|].
    unfold entry in Hin.
    destruct (min_positive_distance haversine coords i) as [m|] eqn:Em;
      [|contradiction].
    destruct Hin as [<-|[]].
    apply (Hmin i p m Ei Em).
Qed.
End ReferenceDistanceCovering.

(** ** add_margin: what is not checked, and doubles at the edges *)

Section AddMarginUnchecked.
Context {F : Type} {S : Scalar F} {L : ScalarLaws F}.

(** The lengths of [lats] and [lons] are never compared: with a positive
    margin each axis is expanded on its own, so sequences of different
    lengths are accepted and come back nine times as long each, no longer
    parallel. *)
Theorem add_margin_unequal_lengths (lats lons : list F) (margin : F) :
  fgtb margin (of_int 0) = true ->
  exists latitudes longitudes,
    add_margin lats lons margin = Return (latitudes, longitudes)
    /\ length latitudes = (9 * length lats)%nat
    /\ length longitudes = (9 * length lons)%nat
    /\ (length lats <> length lons ->
        length latitudes <> length longitudes).
Proof.
  intros Hgt.
  eexists; eexists; split; [apply add_margin_positive; exact Hgt|].
  assert (Hla : length (concat (map (lat_block lats margin) (seq 0 9)))
                = (9 * length lats)%nat).
  { rewrite blocks_length with (n := length lats); [reflexivity|].
    intros k; apply ndarray_add_length. }
  assert (Hlo : length (concat (map (lon_block lons margin) (seq 0 9)))
                = (9 * length lons)%nat).
  { rewrite blocks_length with (n := length lons); [reflexivity|].
    intros k; apply ndarray_add_length. }
  split; [exact Hla|]. split; [exact Hlo|].
  rewrite Hla, Hlo; lia.
Qed.
End AddMarginUnchecked.

Module Float64Cases.
Import Floats Float64.

Lemma Prim2SF_inj (x y : float) : Prim2SF x = Prim2SF y -> x = y.
Proof.
  intros E. rewrite <- (SF2Prim_Prim2SF x), <- (SF2Prim_Prim2SF y), E.
  reflexivity.
Qed.

Lemma SFcompare_finite_refl (s : bool) (m : positive) (e : Z) :
  SFcompare (S754_finite s m e) (S754_finite s m e) = Some Eq.
Proof.
  simpl. rewrite Z.compare_refl, Pos.compare_cont_refl.
  destruct s; reflexivity.
Qed.

(** [x == x] fails for NaN only. *)
Lemma float_eqb_refl_iff (x : float) :
  PrimFloat.eqb x x = false <-> Prim2SF x = S754_nan.
Proof.
  rewrite eqb_spec. unfold SFeqb.
  destruct (Prim2SF x) as [[|]|[|]| |s m e] eqn:E;
    try rewrite SFcompare_finite_refl; simpl;
    split; congruence.
Qed.

(** NaN compares equal to nothing. *)
Lemma float_eqb_nan (y : float) : PrimFloat.eqb y PrimFloat.nan = false.
Proof.
  rewrite eqb_spec. unfold SFeqb.
  change (Prim2SF nan) with S754_nan.
  destruct (Prim2SF y) as [[|]|[|]| |s m e]; reflexivity.
Qed.

(** A double that is neither NaN nor the negative zero. *)
Definition float_ordinary (x : float) : Prop :=
  Prim2SF x <> S754_nan /\ Prim2SF x <> S754_zero true.

(** The place of a decoded double on the number line: class, then
    exponent, then mantissa, mirrored for the negative numbers. *)
Definition rank (x : spec_float) : Z * Z * Z :=
  match x with
  | S754_infinity true => (-2, 0, 0)
  | S754_finite true m e => (-1, - e, - Zpos m)
  | S754_zero _ => (0, 0, 0)
  | S754_nan => (0, 0, 0)
  | S754_finite false m e => (1, e, Zpos m)
  | S754_infinity false => (2, 0, 0)
  end.

Definition lex_le (a b : Z * Z * Z) : Prop :=
  let '(a1, a2, a3) := a in
  let '(b1, b2, b3) := b in
  a1 < b1 \/ (a1 = b1 /\ (a2 < b2 \/ (a2 = b2 /\ a3 <= b3))).

Definition lex_lt (a b : Z * Z * Z) : Prop :=
  let '(a1, a2, a3) := a in
  let '(b1, b2, b3) := b in
  a1 < b1 \/ (a1 = b1 /\ (a2 < b2 \/ (a2 = b2 /\ a3 < b3))).

Ltac compare_cases :=
  repeat match goal with
         | |- context [Z.compare ?a ?b] => destruct (Z.compare_spec a b)
         | |- context [Pos.compare_cont Eq ?a ?b] =>
             change (Pos.compare_cont Eq a b) with (Pos.compare a b);
             destruct (Pos.compare_spec a b)
         end.

Lemma SFleb_rank (x y : spec_float) :
  x <> S754_nan -> y <> S754_nan ->
  (SFleb x y = true <-> lex_le (rank x) (rank y)).
Proof.
  intros Hx Hy. unfold SFleb, SFcompare.
  destruct x as [[|]|[|]| |[|] mx ex], y as [[|]|[|]| |[|] my ey];
    try congruence; cbn [rank lex_le]; compare_cases;
    cbn; split; intros Hgoal; try discriminate; try reflexivity; try lia.
Qed.

Lemma SFltb_rank (x y : spec_float) :
  x <> S754_nan -> y <> S754_nan ->
  (SFltb x y = true <-> lex_lt (rank x) (rank y)).
Proof.
  intros Hx Hy. unfold SFltb, SFcompare.
  destruct x as [[|]|[|]| |[|] mx ex], y as [[|]|[|]| |[|] my ey];
    try congruence; cbn [rank lex_lt]; compare_cases;
    cbn; split; intros Hgoal; try discriminate; try reflexivity; try lia.
Qed.

Lemma SFleb_not_nan (x y : spec_float) :
  SFleb x y = true -> x <> S754_nan /\ y <> S754_nan.
Proof.
  unfold SFleb, SFcompare.
  destruct x as [[|]|[|]| |[|] mx ex], y as [[|]|[|]| |[|] my ey];
    intros Hle; try discriminate Hle; split; discriminate.
Qed.

Lemma rank_inj (x y : spec_float) :
  x <> S754_nan -> x <> S754_zero true ->
  y <> S754_nan -> y <> S754_zero true ->
  rank x = rank y -> x = y.
Proof.
  intros Hx Hx0 Hy Hy0.
  destruct x as [[|]|[|]| |[|] mx ex], y as [[|]|[|]| |[|] my ey];
    try congruence; cbn [rank]; intros [= E1 E2];
    try discriminate; try reflexivity; f_equal; lia.
Qed.

(** On the doubles other than NaN and the negative zero, [<=] is a total
    order that [<] and [==] agree with. *)
Lemma float_OrdinaryLaws : OrdinaryLaws float_ordinary.
Proof.
  split.
  - unfold float_ordinary.
    change (Prim2SF (of_int 0)) with (S754_zero false).
    split; discriminate.
  - intros x y [Hx _] [Hy _]; cbn. rewrite !leb_spec.
    rewrite !SFleb_rank by assumption.
    destruct (rank (Prim2SF x)) as [[a1 a2] a3],
             (rank (Prim2SF y)) as [[b1 b2] b3]; cbn; lia.
  - intros x y z; cbn. rewrite !leb_spec. intros Hxy Hyz.
    destruct (@SFleb_not_nan _ _ Hxy) as [Hx Hy].
    destruct (@SFleb_not_nan _ _ Hyz) as [_ Hz].
    rewrite SFleb_rank in * by assumption.
    destruct (rank (Prim2SF x)) as [[a1 a2] a3],
             (rank (Prim2SF y)) as [[b1 b2] b3],
             (rank (Prim2SF z)) as [[c1 c2] c3]; cbn in *; lia.
  - intros x y [Hx Hx0] [Hy Hy0]; cbn. rewrite !leb_spec.
    rewrite !SFleb_rank by assumption. intros Hxy Hyx.
    apply Prim2SF_inj, rank_inj; try assumption.
    destruct (rank (Prim2SF x)) as [[a1 a2] a3],
             (rank (Prim2SF y)) as [[b1 b2] b3]; cbn in *.
    repeat f_equal; lia.
  - intros x y [Hx _] [Hy _]; cbn. rewrite ltb_spec, leb_spec.
    pose proof (@SFltb_rank _ _ Hx Hy) as Hlt.
    pose proof (@SFleb_rank _ _ Hy Hx) as Hle.
    destruct (rank (Prim2SF x)) as [[a1 a2] a3],
             (rank (Prim2SF y)) as [[b1 b2] b3]; cbn in *.
    destruct (SFltb (Prim2SF x) (Prim2SF y)),
             (SFleb (Prim2SF y) (Prim2SF x)); cbn; try reflexivity;
      exfalso.
    + destruct Hlt as [Hlt _], Hle as [Hle _].
      specialize (Hlt eq_refl); specialize (Hle eq_refl); lia.
    + destruct Hlt as [_ Hlt], Hle as [_ Hle].
      assert (Hcases : a1 < b1 \/ a1 = b1 /\ (a2 < b2 \/ a2 = b2 /\ a3 < b3)
                       \/ b1 < a1 \/ b1 = a1 /\ (b2 < a2 \/ b2 = a2 /\ b3 <= a3))
        by lia.
      destruct Hcases as [H|[H|H]];
        [ specialize (Hlt (or_introl H)); discriminate
        | specialize (Hlt (or_intror H)); discriminate
        | specialize (Hle H); discriminate ].
  - intros x [Hx _]; cbn.
    destruct (PrimFloat.eqb x x) eqn:E; [reflexivity|].
    apply float_eqb_refl_iff in E. contradiction.
Qed.

(** The great-circle distance of two points of the equator in double
    arithmetic: the difference of their longitudes. *)
Definition equator_gap (p q : coord float) : float :=
  PrimFloat.abs (snd q - snd p).

(** Three different points of the equator, and the same with the first
    one entered twice. *)
Definition spaced_doubles : list (coord float) :=
  [(0, 0); (0, 1); (0, 1.5)]%float.

Definition duplicated_doubles : list (coord float) :=
  [(0, 0); (0, 0); (0, 1); (0, 1.5)]%float.

Ltac each_point :=
  repeat match goal with
         | H : In _ (_ :: _) |- _ => destruct H as [<-|H]
         | H : In _ [] |- _ => destruct H
         end.

Lemma duplicated_doubles_ordinary :
  ordinary_distances float_ordinary equator_gap duplicated_doubles.
Proof.
  intros p q Hp Hq. unfold duplicated_doubles in *. each_point;
    split; vm_compute; discriminate.
Qed.

Lemma spaced_doubles_ordinary :
  ordinary_distances float_ordinary equator_gap spaced_doubles.
Proof.
  intros p q Hp Hq. unfold spaced_doubles in *. each_point;
    split; vm_compute; discriminate.
Qed.

Lemma spaced_doubles_apart : pairwise_apart equator_gap spaced_doubles.
Proof.
  intros i j p q Hne Hi Hj.
  do 3 (destruct i as [|i]; [do 3 (destruct j as [|j];
     [try congruence; injection Hi as <-; injection Hj as <-;
      vm_compute; reflexivity|]);
     destruct j; discriminate|]).
  destruct i; discriminate.
Qed.

Lemma spaced_doubles_self : self_distance_zero equator_gap spaced_doubles.
Proof.
  intros p Hp. unfold spaced_doubles in *. each_point;
    vm_compute; reflexivity.
Qed.

Lemma duplicated_doubles_distance_like :
  distance_like equator_gap duplicated_doubles.
Proof.
  split.
  - intros p q Hp Hq. unfold duplicated_doubles in *. each_point;
      vm_compute; reflexivity.
  - intros p Hp. unfold duplicated_doubles in *. each_point;
      vm_compute; reflexivity.
Qed.

(** The assertion [margin >= 0] on doubles fails for the negative numbers
    and for NaN, and for nothing else. *)
Lemma float_not_ge0 (m : float) :
  fgeb m (of_int 0) = false <->
  fltb m (of_int 0) = true \/ Prim2SF m = S754_nan.
Proof.
  unfold fgeb; cbn. rewrite ltb_spec, leb_spec, Prim2SF_zero.
  unfold SFltb, SFleb.
  destruct (Prim2SF m) as [[|]|[|]| |[|] mant e]; cbn;
    split; try tauto; try congruence;
    intros [H|H]; congruence.
Qed.

(** On doubles [add_margin] is rejected exactly for a negative margin or
    a NaN margin; every other margin, [+infinity] and [-0.0] included, is
    accepted. *)
Theorem add_margin_float_rejects (lats lons : list float) (m : float) :
  add_margin lats lons m
    = Raise (AssertionError "Margin must be non-negative")
  <-> (PrimFloat.ltb m 0 = true \/ PrimFloat.eqb m m = false).
Proof.
  rewrite float_eqb_refl_iff.
  change (PrimFloat.ltb m 0) with (fltb m (of_int 0)).
  rewrite <- float_not_ge0.
  unfold add_margin, py_assert.
  destruct (fgeb m (of_int 0)); cbn [bind].
  - split; [|discriminate].
    destruct (feqb m (of_int 0)); [discriminate|].
    destruct (margin_loops lats lons m); discriminate.
  - split; reflexivity.
Qed.

(** A double that is not the negative zero. *)
Definition not_negative_zero (x : float) : Prop :=
  Prim2SF x <> S754_zero true.

(** Adding [0 * m] for a finite positive [m] gives back the number, bit
    for bit, unless it is the negative zero (which becomes [0.0]). *)
Lemma float_zero_offset (x m : float) :
  PrimFloat.ltb 0 m = true -> PrimFloat.ltb m PrimFloat.infinity = true ->
  not_negative_zero x ->
  fadd x (scale 0 m) = x.
Proof.
  intros Hpos Hfin Hx. apply Prim2SF_inj.
  unfold scale; cbn. rewrite add_spec, mul_spec, Prim2SF_zero.
  rewrite ltb_spec in Hpos, Hfin. rewrite Prim2SF_zero in Hpos.
  change (Prim2SF infinity) with (S754_infinity false) in Hfin.
  unfold SFltb in Hpos, Hfin. unfold not_negative_zero in Hx.
  destruct (Prim2SF m) as [[|]|[|]| |[|] mant e]; cbn in Hpos, Hfin;
    try discriminate.
  cbn. destruct (Prim2SF x) as [[|]|[|]| |s mx ex]; cbn;
    try reflexivity; congruence.
Qed.

Lemma ndarray_add_zero_offset (arr : list float) (m : float) :
  PrimFloat.ltb 0 m = true -> PrimFloat.ltb m PrimFloat.infinity = true ->
  Forall not_negative_zero arr ->
  ndarray_add arr (scale 0 m) = arr.
Proof.
  intros Hpos Hfin. induction 1 as [|x arr Hx _ IH]; [reflexivity|].
  unfold ndarray_add in *; cbn [map].
  f_equal; [apply float_zero_offset; assumption | exact IH].
Qed.

Lemma float_ordinary_not_negative_zero (arr : list float) :
  Forall float_ordinary arr -> Forall not_negative_zero arr.
Proof.
  intros H; eapply Forall_impl; [|exact H]. intros x [_ Hx]; exact Hx.
Qed.

(** With a finite positive margin the input points are still in the
    output, as the middle block (positions [4N] to [5N - 1]) and bit for
    bit, provided no coordinate is NaN or the negative zero. *)
Theorem add_margin_float_keeps_originals (lats lons : list float)
    (m : float) :
  PrimFloat.ltb 0 m = true -> PrimFloat.ltb m PrimFloat.infinity = true ->
  Forall float_ordinary lats -> Forall float_ordinary lons ->
  exists latitudes longitudes,
    add_margin lats lons m = Return (latitudes, longitudes)
    /\ firstn (length lats) (skipn (4 * length lats) latitudes) = lats
    /\ firstn (length lons) (skipn (4 * length lons) longitudes) = lons.
Proof.
  intros Hpos Hfin Hlats Hlons.
  apply float_ordinary_not_negative_zero in Hlats, Hlons.
  eexists; eexists; split;
    [apply (add_margin_positive (L := float_ScalarLaws)); exact Hpos|].
  split.
  - rewrite block_of_concat
      by (apply Forall_forall; intros b Hb; apply in_map_iff in Hb;
          destruct Hb as [j [<- _]]; apply ndarray_add_length).
    apply (ndarray_add_zero_offset Hpos Hfin Hlats).
  - rewrite block_of_concat
      by (apply Forall_forall; intros b Hb; apply in_map_iff in Hb;
          destruct Hb as [j [<- _]]; apply ndarray_add_length).
    apply (ndarray_add_zero_offset Hpos Hfin Hlons).
Qed.

Lemma float_not_finite (y : float) :
  Prim2SF y = S754_nan \/ (exists s, Prim2SF y = S754_infinity s) ->
  PrimFloat.is_finite y = false.
Proof.
  unfold PrimFloat.is_finite, is_nan, is_infinity.
  rewrite !eqb_spec, abs_spec.
  change (Prim2SF infinity) with (S754_infinity false).
  intros [->|[s ->]]; [reflexivity|]. destruct s; reflexivity.
Qed.

(** Whatever is shifted by a multiple [-1], [0] or [1] of an infinite
    margin is no longer a finite number. *)
Lemma float_infinite_offset (x : float) (a : Z) :
  In a signs ->
  PrimFloat.is_finite (fadd x (scale a PrimFloat.infinity)) = false.
Proof.
  intros Ha. apply float_not_finite.
  unfold scale; cbn [fadd fmul of_int float_Scalar].
  rewrite add_spec, mul_spec.
  change (Prim2SF infinity) with (S754_infinity false).
  destruct Ha as [<-|[<-|[<-|[]]]].
  - change (Prim2SF (float_of_int (-1)))
      with (S754_finite true 4503599627370496 (-52)).
    destruct (Prim2SF x) as [[|]|[|]| |s mx ex]; cbn; eauto.
  - change (Prim2SF (float_of_int 0)) with (S754_zero false).
    destruct (Prim2SF x) as [[|]|[|]| |s mx ex]; cbn; eauto.
  - change (Prim2SF (float_of_int 1))
      with (S754_finite false 4503599627370496 (-52)).
    destruct (Prim2SF x) as [[|]|[|]| |s mx ex]; cbn; eauto.
Qed.

(** An infinite margin passes the assertion, and then nothing finite is
    returned: every output coordinate is NaN or an infinity, whatever the
    input points were. *)
Theorem add_margin_float_infinite (lats lons : list float) :
  exists latitudes longitudes,
    add_margin lats lons PrimFloat.infinity = Return (latitudes, longitudes)
    /\ (forall y, In y latitudes -> PrimFloat.is_finite y = false)
    /\ (forall y, In y longitudes -> PrimFloat.is_finite y = false).
Proof.
  eexists; eexists; split;
    [apply (add_margin_positive (L := float_ScalarLaws)); reflexivity|].
  split; intros y Hy; apply in_concat in Hy; destruct Hy as [b [Hb Hy]];
    apply in_map_iff in Hb; destruct Hb as [k [<- Hk]];
    apply in_seq in Hk; apply in_map_iff in Hy;
    destruct Hy as [x [<- _]]; apply float_infinite_offset;
    do 9 (destruct k as [|k]; [simpl; tauto|]); lia.
Qed.
End Float64Cases.

(** ** The further properties on doubles and on the equator *)

Module Float64CaseRuns.
Import Floats Float64 Float64Cases.

Lemma get_index_in_outer_join_sound_example :
  get_index_in_outer_join [3; 4]%float [[1; 2]; [3; 4]; [5; 6]]%float
    = Return 1
  /\ only_match [3; 4]%float [[1; 2]; [3; 4]; [5; 6]]%float 1.
Proof.
  assert (Hrun : get_index_in_outer_join [3; 4]%float
                   [[1; 2]; [3; 4]; [5; 6]]%float = Return 1)
    by reflexivity.
  split; [exact Hrun|].
  destruct (@get_index_in_outer_join_sound _ _
              [3; 4]%float [[1; 2]; [3; 4]; [5; 6]]%float 1
              ltac:(repeat constructor) Hrun)
    as [[Hneg _]|[i [Hi [_ Hmatch]]]]; [discriminate Hneg|].
  assert (E : i = 1%nat) by lia. rewrite E in Hmatch. exact Hmatch.
Defined.

(** A row that holds the very NaN the vector holds is still not found. *)
Lemma get_index_in_outer_join_nan_example :
  get_index_in_outer_join [PrimFloat.nan; 4]%float
    [[PrimFloat.nan; 4]; [1; 2]]%float
  = Return (-1).
Proof.
  apply (@get_index_in_outer_join_unmatchable _ _
           [PrimFloat.nan; 4]%float [[PrimFloat.nan; 4]; [1; 2]]%float
           PrimFloat.nan).
  - repeat constructor.
  - left; reflexivity.
  - exact float_eqb_nan.
Defined.

Lemma get_index_in_outer_join_shape_mismatch_example :
  get_index_in_outer_join [1; 2; 3]%float [[1; 2]; [3; 4]]%float
  = Raise (RuntimeError broadcast_message).
Proof.
  apply (@get_index_in_outer_join_shape_mismatch _ _
           [1; 2; 3]%float [[1; 2]; [3; 4]]%float 2%nat);
    try discriminate; repeat constructor.
Defined.

Lemma get_index_in_outer_join_scalar_query_example :
  get_index_in_outer_join [3]%float [[1; 2]; [3; 3]; [5; 6]]%float
  = Return 1.
Proof.
  apply (@get_index_in_outer_join_scalar_query _ _ 3%float
           [[1; 2]; [3; 3]; [5; 6]]%float 1%nat [3; 3]%float);
    try reflexivity.
  intros j row' Hj Hrow.
  do 3 (destruct j as [|j];
        [injection Hj as <-; try reflexivity; discriminate Hrow|]).
  destruct j; discriminate.
Defined.

Lemma add_margin_unequal_lengths_example :
  exists latitudes longitudes,
    add_margin [0.5; 1.5]%float [10]%float 0.25%float
      = Return (latitudes, longitudes)
    /\ length latitudes = 18%nat
    /\ length longitudes = 9%nat.
Proof.
  destruct (add_margin_unequal_lengths (L := float_ScalarLaws)
              [0.5; 1.5]%float [10]%float 0.25%float eq_refl)
    as [latitudes [longitudes [Hrun [Hlat [Hlon _]]]]].
  exists latitudes, longitudes. repeat split; assumption.
Defined.

Lemma add_margin_float_keeps_originals_example :
  exists latitudes longitudes,
    add_margin [0.5; 1.5]%float [10; 20]%float 0.25%float
      = Return (latitudes, longitudes)
    /\ firstn 2 (skipn 8 latitudes) = [0.5; 1.5]%float
    /\ firstn 2 (skipn 8 longitudes) = [10; 20]%float.
Proof.
  apply (@add_margin_float_keeps_originals
           [0.5; 1.5]%float [10; 20]%float 0.25%float);
    try reflexivity;
    repeat constructor; vm_compute; discriminate.
Defined.
End Float64CaseRuns.

Module EquatorCaseRuns.
Import Reals Lra RealHaversine.
Local Open Scope R_scope.

Lemma reference_distance_too_few_points_single :
  get_grid_reference_distance haversine [(0, 0)] None
  = Raise (ValueError "Expected n_neighbors <= n_samples_fit").
Proof.
  destruct (reference_distance_too_few_points haversine
              [(0, 0)] None I ltac:(simpl; lia)) as [_ [_ Hone]].
  apply (Hone (0, 0)); reflexivity.
Defined.

Lemma reference_distance_attained_duplicated :
  fgtb (1 / 2) (of_int 0) = true
  /\ exists p q, In p duplicated_grid /\ In q duplicated_grid
                 /\ 1 / 2 = haversine p q.
Proof.
  destruct (reference_distance_attained haversine duplicated_grid None
              duplicated_grid_distance) as [_ [_ [_ [Hpos Hpq]]]].
  split; assumption.
Defined.


End EquatorCaseRuns.

(** ** The reference distance on ordinary distances: doubles and reals *)

Module OrdinaryRuns.
Import Reals RealHaversine Floats Float64 Float64Cases.

(** Every real number is ordinary. *)
Lemma R_OrdinaryLaws : OrdinaryLaws (fun _ : R => True).
Proof. exact (OrderLaws_ordinary R_OrderLaws). Qed.

Lemma all_ordinary (coords : list (coord R)) :
  ordinary_distances (fun _ : R => True) haversine coords.
Proof. intros p q _ _; exact I. Qed.

Lemma reference_distance_brute_force_spaced :
  (ordinary_distances float_ordinary equator_gap spaced_doubles
   /\ pairwise_apart equator_gap spaced_doubles
   /\ self_distance_zero equator_gap spaced_doubles
   /\ exists v,
        get_grid_reference_distance equator_gap spaced_doubles None
          = Return v
        /\ brute_force_reference_distance equator_gap spaced_doubles
           = Some v)
  /\ (pairwise_apart haversine spaced_grid
      /\ self_distance_zero haversine spaced_grid
      /\ exists v,
           get_grid_reference_distance haversine spaced_grid None = Return v
           /\ brute_force_reference_distance haversine spaced_grid
              = Some v).
Proof.
  split.
  - split; [exact spaced_doubles_ordinary|].
    split; [exact spaced_doubles_apart|].
    split; [exact spaced_doubles_self|].
    apply (reference_distance_brute_force float_OrdinaryLaws
             (haversine := equator_gap) (coords := spaced_doubles) None).
    + exact I.
    + reflexivity.
    + simpl; lia.
    + exact spaced_doubles_ordinary.
    + exact spaced_doubles_apart.
    + exact spaced_doubles_self.
  - split; [exact spaced_grid_apart|]. split; [exact spaced_grid_self|].
    apply (reference_distance_brute_force R_OrdinaryLaws
             (haversine := haversine) (coords := spaced_grid) None).
    + exact I.
    + reflexivity.
    + simpl; lia.
    + apply all_ordinary.
    + exact spaced_grid_apart.
    + exact spaced_grid_self.
Defined.

Lemma reference_distance_repeated_points_duplicated :
  (ordinary_distances float_ordinary equator_gap duplicated_doubles
   /\ distance_like equator_gap duplicated_doubles
   /\ get_grid_reference_distance equator_gap duplicated_doubles None
      = ndarray_max
          (flat_map (row_contribution equator_gap duplicated_doubles)
                    (seq 0 (length duplicated_doubles))))
  /\ (distance_like haversine duplicated_grid
      /\ get_grid_reference_distance haversine duplicated_grid None
         = ndarray_max
             (flat_map (row_contribution haversine duplicated_grid)
                       (seq 0 (length duplicated_grid)))).
Proof.
  split.
  - split; [exact duplicated_doubles_ordinary|].
    split; [exact duplicated_doubles_distance_like|].
    apply (reference_distance_repeated_points float_OrdinaryLaws
             (haversine := equator_gap) (coords := duplicated_doubles) None).
    + exact I.
    + reflexivity.
    + simpl; lia.
    + exact duplicated_doubles_ordinary.
    + exact duplicated_doubles_distance_like.
  - split; [exact duplicated_grid_distance_like|].
    apply (reference_distance_repeated_points R_OrdinaryLaws
             (haversine := haversine) (coords := duplicated_grid) None).
    + exact I.
    + reflexivity.
    + simpl; lia.
    + apply all_ordinary.
    + exact duplicated_grid_distance_like.
Defined.

Lemma reference_distance_covering_spaced :
  (exists v,
     get_grid_reference_distance equator_gap spaced_doubles None = Return v
     /\ (forall i p, nth_error spaced_doubles i = Some p ->
           exists j q, j <> i /\ nth_error spaced_doubles j = Some q
                       /\ fleb (equator_gap p q) v = true)
     /\ (exists i p, nth_error spaced_doubles i = Some p
           /\ forall j q, j <> i -> nth_error spaced_doubles j = Some q ->
                          fleb v (equator_gap p q) = true))
  /\ (exists v,
        get_grid_reference_distance haversine spaced_grid None = Return v
        /\ (forall i p, nth_error spaced_grid i = Some p ->
              exists j q, j <> i /\ nth_error spaced_grid j = Some q
                          /\ fleb (haversine p q) v = true)
        /\ (exists i p, nth_error spaced_grid i = Some p
              /\ forall j q, j <> i -> nth_error spaced_grid j = Some q ->
                             fleb v (haversine p q) = true)).
Proof.
  split.
  - apply (reference_distance_covering float_OrdinaryLaws
             (haversine := equator_gap) (coords := spaced_doubles) None).
    + exact I.
    + reflexivity.
    + simpl; lia.
    + exact spaced_doubles_ordinary.
    + exact spaced_doubles_apart.
    + exact spaced_doubles_self.
  - apply (reference_distance_covering R_OrdinaryLaws
             (haversine := haversine) (coords := spaced_grid) None).
    + exact I.
    + reflexivity.
    + simpl; lia.
    + apply all_ordinary.
    + exact spaced_grid_apart.
    + exact spaced_grid_self.
Defined.

(** On the doubles the two computations give the same number, 1.0. *)
Example spaced_doubles_run :
  get_grid_reference_distance equator_gap spaced_doubles None
    = Return 1%float
  /\ brute_force_reference_distance equator_gap spaced_doubles
     = Some 1%float.
Proof. split; vm_compute; reflexivity. Qed.
End OrdinaryRuns.
